(** * The catalog client of pkg/whatsapp (catalog.go)

    A shallow embedding of the seven catalog operations of the WhatsApp
    client, together with the parts of the Go standard library they call
    (strconv.FormatInt, url.Values, encoding/json), and the properties of
    the client's external contract.

    Conventions.  A Go [string] is a Rocq [string] (a sequence of bytes, one
    [ascii] per byte); a [[]byte] is a [list ascii]; an [int64] is a [Z] in
    the range of the type; a [map[string]string] is a [gmap string string];
    a slice that may be nil is an [option (list _)], with [None] for nil.
    The pointers [account] and [product] are taken to be non-nil. *)

From Stdlib Require Import ZArith Ascii String List Lia.
From stdpp Require Import base option gmap strings list fin_maps sorting.

Open Scope Z_scope.
Set Warnings "-register-all".

Abbreviation bytes := (list ascii).

(** ** Bytes *)

(** The numeric value of a byte. *)
Definition code (c : ascii) : Z := Z.of_N (N_of_ascii c).

(** The byte of a numeric value below 256. *)
Definition byteOf (n : Z) : ascii := ascii_of_N (Z.to_N n).

(** [lo <= c && c <= hi] on bytes. *)
Definition between (lo hi c : ascii) : bool :=
  (code lo <=? code c) && (code c <=? code hi).

Definition dquote : ascii := "034"%char.
Definition backslash : ascii := "092"%char.

(** Writes a text with ['] in place of the double quote, for the examples. *)
Fixpoint js (s : string) : bytes :=
  match s with
  | EmptyString => []
  | String c s' => (if Ascii.eqb c "'" then dquote else c) :: js s'
  end.

(** ** strconv *)

Module strconv.

(** The digit table of strconv: [digits[d]]. *)
Definition digits : string := "0123456789abcdefghijklmnopqrstuvwxyz".

Definition digit (d : Z) : ascii :=
  default "0"%char (String.get (Z.to_nat d) digits).

(** The loop of [formatBits] for a general base: the digits are written
    from the least significant one, in front of those already there.  The
    buffer of the source has 64 digits, which the fuel stands for. *)
Fixpoint formatBits (fuel : nat) (u b : Z) (a : string) : string :=
  match fuel with
  | O => a
  | S fuel' =>
      if b <=? u
      then formatBits fuel' (u / b) b (String (digit (u - (u / b) * b)) a)
      else String (digit u) a
  end.

(** [FormatInt(i, base)]: the sign, then the digits of the magnitude, which
    is taken in [uint64] ([u = -u] wraps around for the least [int64]). *)
Definition FormatInt (i : Z) (base : Z) : string :=
  if i <? 0
  then String "-" (formatBits 64 ((- i) mod 2 ^ 64) base "")
  else formatBits 64 i base "".

End strconv.

(** ** net/url *)

Module url.

Definition upperhex : string := "0123456789ABCDEF".

Definition hexdigit (n : Z) : ascii :=
  default "0"%char (String.get (Z.to_nat n) upperhex).

(** [shouldEscape(c, encodeQueryComponent)]: only the unreserved characters
    of RFC 3986 section 2.3 are left as they are. *)
Definition shouldEscape (c : ascii) : bool :=
  if between "a" "z" c || between "A" "Z" c || between "0" "9" c then false
  else if Ascii.eqb c "-" || Ascii.eqb c "_" || Ascii.eqb c "."
          || Ascii.eqb c "~" then false
  else true.

(** [escape(s, encodeQueryComponent)]. *)
Fixpoint escape (s : string) : string :=
  match s with
  | EmptyString => EmptyString
  | String c s' =>
      if shouldEscape c then
        if Ascii.eqb c " " then String "+" (escape s')
        else String "%" (String (hexdigit (Z.shiftr (code c) 4))
               (String (hexdigit (Z.land (code c) 15)) (escape s')))
      else String c (escape s')
  end.

Definition QueryEscape (s : string) : string := escape s.

Definition ishex (c : ascii) : bool :=
  between "0" "9" c || between "a" "f" c || between "A" "F" c.

Definition unhex (c : ascii) : Z :=
  if between "0" "9" c then code c - code "0"
  else if between "a" "f" c then code c - code "a" + 10
  else if between "A" "F" c then code c - code "A" + 10
  else 0.

(** [unescape(s, encodeQueryComponent)]: [None] stands for the
    [EscapeError] of a [%] that two hexadecimal digits do not follow. *)
Fixpoint unescape (s : string) : option string :=
  match s with
  | EmptyString => Some EmptyString
  | String c s1 =>
      if Ascii.eqb c "%" then
        match s1 with
        | String h1 (String h2 s3) =>
            if ishex h1 && ishex h2
            then String (byteOf (Z.lor (Z.shiftl (unhex h1) 4) (unhex h2)))
                   <$> unescape s3
            else None
        | _ => None
        end
      else if Ascii.eqb c "+" then String " " <$> unescape s1
      else String c <$> unescape s1
  end.

Definition QueryUnescape (s : string) : option string := unescape s.

(** [url.Values] is [map[string][]string]. *)
Definition Add (key value : string) (v : gmap string (list string))
  : gmap string (list string) :=
  <[key := default [] (v !! key) ++ [value]]> v.

(** [Values.Encode]: the keys in increasing order, each value as
    [key=value], both escaped, the pairs joined by [&]. *)
Definition Encode (v : gmap string (list string)) : string :=
  let keys := merge_sort (λ a b, String.leb a b) (elements (dom v)) in
  foldl (λ buf k,
           let keyEscaped := QueryEscape k in
           foldl (λ buf x,
                    (if (0 <? Z.of_nat (String.length buf))
                     then buf +:+ "&" else buf)
                      +:+ keyEscaped +:+ "=" +:+ QueryEscape x)
                 buf (default [] (v !! k)))
        EmptyString keys.

End url.

(** ** Outcomes *)

(** A call returns, or it panics: encoding/json panics when its decoder and
    its scanner disagree about the input. *)
Inductive outcome (A : Type) : Type :=
| Ret (a : A)
| Panic.
Arguments Ret {A} a.
Arguments Panic {A}.

(** ** unicode/utf8 and unicode/utf16 *)

Module utf8.

Definition RuneError : Z := 0xFFFD.
Definition MaxRune : Z := 0x10FFFF.
Definition RuneSelf : Z := 0x80.
Definition surrogateMin : Z := 0xD800.
Definition surrogateMax : Z := 0xDFFF.

(** The bytes of the three-byte form, which [EncodeRune] also writes for
    [RuneError] in place of a rune out of range. *)
Definition encode3 (r : Z) : bytes :=
  [byteOf (Z.lor 0xE0 (Z.shiftr r 12));
   byteOf (Z.lor 0x80 (Z.land (Z.shiftr r 6) 0x3F));
   byteOf (Z.lor 0x80 (Z.land r 0x3F))].

(** [EncodeRune]: the bytes it writes.  The rune is compared as a
    [uint32], so that a negative one is out of range. *)
Definition EncodeRune (r : Z) : bytes :=
  let i := r mod 2 ^ 32 in
  if i <=? 0x7F then [byteOf r]
  else if i <=? 0x7FF then
    [byteOf (Z.lor 0xC0 (Z.shiftr r 6)); byteOf (Z.lor 0x80 (Z.land r 0x3F))]
  else if (MaxRune <? i) || ((surrogateMin <=? i) && (i <=? surrogateMax))
  then encode3 RuneError
  else if i <=? 0xFFFF then encode3 r
  else
    [byteOf (Z.lor 0xF0 (Z.shiftr r 18));
     byteOf (Z.lor 0x80 (Z.land (Z.shiftr r 12) 0x3F));
     byteOf (Z.lor 0x80 (Z.land (Z.shiftr r 6) 0x3F));
     byteOf (Z.lor 0x80 (Z.land r 0x3F))].

(** The table [first] with [acceptRanges]: for a first byte that starts a
    sequence of several bytes, its length and the range of the second
    byte; [None] for an ASCII byte and for a byte that starts nothing. *)
Definition first (p0 : Z) : option (nat * Z * Z) :=
  if (0xC2 <=? p0) && (p0 <=? 0xDF) then Some (2%nat, 0x80, 0xBF)
  else if p0 =? 0xE0 then Some (3%nat, 0xA0, 0xBF)
  else if p0 =? 0xED then Some (3%nat, 0x80, 0x9F)
  else if (0xE1 <=? p0) && (p0 <=? 0xEF) then Some (3%nat, 0x80, 0xBF)
  else if p0 =? 0xF0 then Some (4%nat, 0x90, 0xBF)
  else if (0xF1 <=? p0) && (p0 <=? 0xF3) then Some (4%nat, 0x80, 0xBF)
  else if p0 =? 0xF4 then Some (4%nat, 0x80, 0x8F)
  else None.

Definition cont (b : Z) : bool := (0x80 <=? b) && (b <=? 0xBF).

(** [DecodeRune]: the rune at the head of [p] and its width; an invalid
    or short encoding gives [RuneError] with width one. *)
Definition DecodeRune (p : bytes) : Z * nat :=
  match p with
  | [] => (RuneError, 0%nat)
  | c0 :: p1 =>
      let p0 := code c0 in
      match first p0 with
      | None => (if p0 <? RuneSelf then p0 else RuneError, 1%nat)
      | Some (sz, lo, hi) =>
          if (length p <? sz)%nat then (RuneError, 1%nat) else
          match p1 with
          | [] => (RuneError, 1%nat)
          | c1 :: p2 =>
              let b1 := code c1 in
              if (b1 <? lo) || (hi <? b1) then (RuneError, 1%nat)
              else if (sz <=? 2)%nat then
                (Z.lor (Z.shiftl (Z.land p0 0x1F) 6) (Z.land b1 0x3F), 2%nat)
              else
              match p2 with
              | [] => (RuneError, 1%nat)
              | c2 :: p3 =>
                  let b2 := code c2 in
                  if negb (cont b2) then (RuneError, 1%nat)
                  else if (sz <=? 3)%nat then
                    (Z.lor (Z.lor (Z.shiftl (Z.land p0 0x0F) 12)
                                  (Z.shiftl (Z.land b1 0x3F) 6))
                           (Z.land b2 0x3F), 3%nat)
                  else
                  match p3 with
                  | [] => (RuneError, 1%nat)
                  | c3 :: _ =>
                      let b3 := code c3 in
                      if negb (cont b3) then (RuneError, 1%nat)
                      else
                        (Z.lor (Z.lor (Z.lor (Z.shiftl (Z.land p0 0x07) 18)
                                             (Z.shiftl (Z.land b1 0x3F) 12))
                                      (Z.shiftl (Z.land b2 0x3F) 6))
                               (Z.land b3 0x3F), 4%nat)
                  end
              end
          end
      end
  end.

End utf8.

Module utf16.

Definition surr1 : Z := 0xD800.
Definition surr2 : Z := 0xDC00.
Definition surr3 : Z := 0xE000.
Definition surrSelf : Z := 0x10000.

Definition IsSurrogate (r : Z) : bool := (surr1 <=? r) && (r <? surr3).

(** [DecodeRune(r1, r2)]: the rune of a surrogate pair, or the replacement
    rune when the two are not a high and a low surrogate. *)
Definition DecodeRune (r1 r2 : Z) : Z :=
  if (surr1 <=? r1) && (r1 <? surr2) && (surr2 <=? r2) && (r2 <? surr3)
  then Z.lor (Z.shiftl (r1 - surr1) 10) (r2 - surr2) + surrSelf
  else utf8.RuneError.

End utf16.

(** ** encoding/json *)

Module json.

(** The scanner refuses a text whose arrays and objects nest deeper. *)
Definition maxNestingDepth : Z := 10000.

(** A JSON text as the decoder walks it.  A number and a string keep the
    bytes of their literal (for a string, those between the quotes), which
    the decoder converts only when it stores them; the members of an
    object keep their order and their duplicates. *)
Inductive value : Type :=
| Null
| Bool (b : bool)
| Number (lit : bytes)
| Str (lit : bytes)
| Array (elems : list value)
| Object (members : list (bytes * value)).

(** The two errors of [Unmarshal]; the message and the offset of the
    source's [SyntaxError] and the Go type and offset of its
    [UnmarshalTypeError] are left out. *)
Inductive Error : Type :=
| SyntaxError
| UnmarshalTypeError (Value : string).

Definition isSpace (c : ascii) : bool :=
  Ascii.eqb c " " || Ascii.eqb c "009" || Ascii.eqb c "013"
  || Ascii.eqb c "010".

Fixpoint skipSpace (s : bytes) : bytes :=
  match s with
  | c :: s' => if isSpace c then skipSpace s' else s
  | [] => []
  end.

Definition isDigit (c : ascii) : bool := between "0" "9" c.

Definition isHex (c : ascii) : bool :=
  between "0" "9" c || between "a" "f" c || between "A" "F" c.

(** The escapes of one character that the scanner accepts. *)
Definition isEscape (c : ascii) : bool :=
  Ascii.eqb c "b" || Ascii.eqb c "f" || Ascii.eqb c "n" || Ascii.eqb c "r"
  || Ascii.eqb c "t" || Ascii.eqb c backslash || Ascii.eqb c "/"
  || Ascii.eqb c dquote.

(** The rest of a string literal after its opening quote: the bytes up to
    the closing quote, and what follows it. *)
Fixpoint scanString (s : bytes) : option (bytes * bytes) :=
  match s with
  | [] => None
  | c :: s1 =>
      if Ascii.eqb c dquote then Some ([], s1)
      else if Ascii.eqb c backslash then
        match s1 with
        | [] => None
        | e :: s2 =>
            if isEscape e then
              '(lit, rest) ← scanString s2; Some (c :: e :: lit, rest)
            else if Ascii.eqb e "u" then
              match s2 with
              | h1 :: h2 :: h3 :: h4 :: s3 =>
                  if isHex h1 && isHex h2 && isHex h3 && isHex h4 then
                    '(lit, rest) ← scanString s3;
                    Some (c :: e :: h1 :: h2 :: h3 :: h4 :: lit, rest)
                  else None
              | _ => None
              end
            else None
        end
      else if code c <? 0x20 then None
      else '(lit, rest) ← scanString s1; Some (c :: lit, rest)
  end.

(** The longest run of digits at the head. *)
Fixpoint scanDigits (s : bytes) : bytes * bytes :=
  match s with
  | c :: s' =>
      if isDigit c then let '(ds, rest) := scanDigits s' in (c :: ds, rest)
      else ([], s)
  | [] => ([], [])
  end.

(** The integer part: [0], or a digit from 1 to 9 and any digits. *)
Definition scanInt (s : bytes) : option (bytes * bytes) :=
  match s with
  | c :: s' =>
      if Ascii.eqb c "0" then Some ([c], s')
      else if between "1" "9" c then
        let '(ds, rest) := scanDigits s' in Some (c :: ds, rest)
      else None
  | [] => None
  end.

(** The optional fraction: a point and at least one digit. *)
Definition scanFrac (s : bytes) : option (bytes * bytes) :=
  match s with
  | c :: s' =>
      if Ascii.eqb c "." then
        match scanDigits s' with
        | ([], _) => None
        | (ds, rest) => Some (c :: ds, rest)
        end
      else Some ([], s)
  | [] => Some ([], [])
  end.

(** The optional exponent: [e] or [E], an optional sign, and at least one
    digit. *)
Definition scanExp (s : bytes) : option (bytes * bytes) :=
  match s with
  | c :: s' =>
      if Ascii.eqb c "e" || Ascii.eqb c "E" then
        let '(sign, s2) :=
          match s' with
          | g :: s2 =>
              if Ascii.eqb g "+" || Ascii.eqb g "-" then ([g], s2)
              else ([], s')
          | [] => ([], s')
          end in
        match scanDigits s2 with
        | ([], _) => None
        | (ds, rest) => Some (c :: sign ++ ds, rest)
        end
      else Some ([], s)
  | [] => Some ([], [])
  end.

(** A number literal at the head. *)
Definition scanNumber (s : bytes) : option (bytes * bytes) :=
  let '(sign, s1) :=
    match s with
    | c :: s' => if Ascii.eqb c "-" then ([c], s') else ([], s)
    | [] => ([], s)
    end in
  '(i, s2) ← scanInt s1;
  '(f, s3) ← scanFrac s2;
  '(e, s4) ← scanExp s3;
  Some (sign ++ i ++ f ++ e, s4).

(** The word [w] at the head. *)
Fixpoint scanWord (w : bytes) (s : bytes) : option bytes :=
  match w, s with
  | [], _ => Some s
  | a :: w', c :: s' => if Ascii.eqb a c then scanWord w' s' else None
  | _ :: _, [] => None
  end.

(** The value at the head of [s], which starts at the value's first byte,
    and what follows it.  [depth] counts the arrays and objects that are
    open.  The fuel bounds the calls; each call is on a shorter text, so
    that the length of the text and one is enough. *)
Fixpoint scanValue (fuel : nat) (depth : Z) (s : bytes)
  : option (value * bytes) :=
  match fuel with
  | O => None
  | S fuel =>
      match s with
      | [] => None
      | c :: r =>
          if Ascii.eqb c "{" then
            if maxNestingDepth <=? depth then None else
            match skipSpace r with
            | [] => None
            | c' :: r' =>
                if Ascii.eqb c' "}" then Some (Object [], r')
                else
                  '(ms, rest) ← scanMembers fuel (depth + 1) (c' :: r');
                  Some (Object ms, rest)
            end
          else if Ascii.eqb c "[" then
            if maxNestingDepth <=? depth then None else
            match skipSpace r with
            | [] => None
            | c' :: r' =>
                if Ascii.eqb c' "]" then Some (Array [], r')
                else
                  '(vs, rest) ← scanElements fuel (depth + 1) (c' :: r');
                  Some (Array vs, rest)
            end
          else if Ascii.eqb c dquote then
            '(lit, rest) ← scanString r; Some (Str lit, rest)
          else if Ascii.eqb c "-" || isDigit c then
            '(lit, rest) ← scanNumber s; Some (Number lit, rest)
          else if Ascii.eqb c "t" then
            rest ← scanWord ["r"; "u"; "e"]%char r; Some (Bool true, rest)
          else if Ascii.eqb c "f" then
            rest ← scanWord ["a"; "l"; "s"; "e"]%char r;
            Some (Bool false, rest)
          else if Ascii.eqb c "n" then
            rest ← scanWord ["u"; "l"; "l"]%char r; Some (Null, rest)
          else None
      end
  end

(** The members of an object from the opening quote of a key to the
    closing brace. *)
with scanMembers (fuel : nat) (depth : Z) (s : bytes)
  : option (list (bytes * value) * bytes) :=
  match fuel with
  | O => None
  | S fuel =>
      match s with
      | [] => None
      | q :: r =>
          if Ascii.eqb q dquote then
            '(key, r1) ← scanString r;
            match skipSpace r1 with
            | [] => None
            | colon :: r2 =>
                if Ascii.eqb colon ":" then
                  '(v, r3) ← scanValue fuel depth (skipSpace r2);
                  match skipSpace r3 with
                  | [] => None
                  | d :: r4 =>
                      if Ascii.eqb d "," then
                        '(ms, rest) ← scanMembers fuel depth (skipSpace r4);
                        Some ((key, v) :: ms, rest)
                      else if Ascii.eqb d "}" then Some ([(key, v)], r4)
                      else None
                  end
                else None
            end
          else None
      end
  end

(** The elements of an array from the first byte of an element to the
    closing bracket. *)
with scanElements (fuel : nat) (depth : Z) (s : bytes)
  : option (list value * bytes) :=
  match fuel with
  | O => None
  | S fuel =>
      '(v, r1) ← scanValue fuel depth s;
      match skipSpace r1 with
      | [] => None
      | d :: r2 =>
          if Ascii.eqb d "," then
            '(vs, rest) ← scanElements fuel depth (skipSpace r2);
            Some (v :: vs, rest)
          else if Ascii.eqb d "]" then Some ([v], r2)
          else None
      end
  end.

(** The syntax check of a whole text ([checkValid]): one value, with
    white space around it and nothing else. *)
Definition parse (data : bytes) : option value :=
  '(v, rest) ← scanValue (S (length data)) 0 (skipSpace data);
  match skipSpace rest with
  | [] => Some v
  | _ :: _ => None
  end.

(** [json.Valid]. *)
Definition Valid (data : bytes) : bool :=
  match parse data with Some _ => true | None => false end.

(** *** Decoding *)

(** [getu4]: the rune of a [\uXXXX] at the head, or -1. *)
Definition getu4 (s : bytes) : Z :=
  match s with
  | b :: u :: h1 :: h2 :: h3 :: h4 :: _ =>
      if Ascii.eqb b backslash && Ascii.eqb u "u"
         && isHex h1 && isHex h2 && isHex h3 && isHex h4
      then ((url.unhex h1 * 16 + url.unhex h2) * 16 + url.unhex h3) * 16
           + url.unhex h4
      else -1
  | _ => -1
  end.

(** One turn of the loop of [unquoteBytes] at the head of [s]: the bytes
    it writes and the number of bytes it reads; [None] where the source
    gives up. *)
Definition unquoteStep (s : bytes) : option (bytes * nat) :=
  match s with
  | [] => None
  | c :: r =>
      if Ascii.eqb c backslash then
        match r with
        | [] => None
        | e :: _ =>
            if Ascii.eqb e dquote || Ascii.eqb e backslash
               || Ascii.eqb e "/" || Ascii.eqb e "'"
            then Some ([e], 2%nat)
            else if Ascii.eqb e "b" then Some (["008"%char], 2%nat)
            else if Ascii.eqb e "f" then Some (["012"%char], 2%nat)
            else if Ascii.eqb e "n" then Some (["010"%char], 2%nat)
            else if Ascii.eqb e "r" then Some (["013"%char], 2%nat)
            else if Ascii.eqb e "t" then Some (["009"%char], 2%nat)
            else if Ascii.eqb e "u" then
              let rr := getu4 s in
              if rr <? 0 then None
              else if utf16.IsSurrogate rr then
                let rr1 := getu4 (drop 6 s) in
                let dec := utf16.DecodeRune rr rr1 in
                if negb (dec =? utf8.RuneError)
                then Some (utf8.EncodeRune dec, 12%nat)
                else Some (utf8.EncodeRune utf8.RuneError, 6%nat)
              else Some (utf8.EncodeRune rr, 6%nat)
            else None
        end
      else if Ascii.eqb c dquote || (code c <? 0x20) then None
      else if code c <? utf8.RuneSelf then Some ([c], 1%nat)
      else
        let '(rr, size) := utf8.DecodeRune s in
        Some (utf8.EncodeRune rr, size)
  end.

(** The loop of [unquoteBytes]: [skip] is the number of bytes that the
    last turn has read beyond the one it started at. *)
Fixpoint unquoteLoop (s : bytes) (skip : nat) : option bytes :=
  match s with
  | [] => Some []
  | _ :: s' =>
      match skip with
      | S k => unquoteLoop s' k
      | O =>
          '(out, n) ← unquoteStep s;
          rest ← unquoteLoop s' (pred n);
          Some (out ++ rest)
      end
  end.

(** [unquoteBytes] on the bytes between the quotes of a literal. *)
Definition unquote (lit : bytes) : option bytes := unquoteLoop lit 0.

(** [foldName]: the ASCII letters in upper case.  A rune outside ASCII
    folds to itself, to another rune outside ASCII, or to [K] or [S]; it is
    left as it is here, the names of this client's fields have no [k] and
    no [s]. *)
Definition foldName (key : bytes) : bytes :=
  map (λ c, if between "a" "z" c then byteOf (code c - 32) else c) key.

(** The lookup of a key among the fields of a struct with the one field
    [name]: the exact name first, then the folded one. *)
Definition fieldMatches (name : string) (key : bytes) : bool :=
  bool_decide (key = list_ascii_of_string name)
  || bool_decide (foldName key = foldName (list_ascii_of_string name)).

(** [saveError]: the first error is the one that is kept. *)
Definition saveError (saved err : option Error) : option Error :=
  match saved with
  | Some _ => saved
  | None => err
  end.

(** The store of a value into a field of kind [string]: a string literal
    is unquoted and stored, [null] leaves the field as it is, and anything
    else is a type error that leaves it as it is too. *)
Definition storeString (v : value) (dst : string)
  : outcome (string * option Error) :=
  match v with
  | Null => Ret (dst, None)
  | Str lit =>
      match unquote lit with
      | Some s => Ret (string_of_list_ascii s, None)
      | None => Panic
      end
  | Bool _ => Ret (dst, Some (UnmarshalTypeError "bool"))
  | Number _ => Ret (dst, Some (UnmarshalTypeError "number"))
  | Array _ => Ret (dst, Some (UnmarshalTypeError "array"))
  | Object _ => Ret (dst, Some (UnmarshalTypeError "object"))
  end.

(** The texts [Unmarshal] reads into a target, after the syntax check. *)
Definition Unmarshal {T : Type}
  (store : value → T → outcome (T * option Error))
  (data : bytes) (v : T) : outcome (T * option Error) :=
  match parse data with
  | None => Ret (v, Some SyntaxError)
  | Some j => store j v
  end.

(** The members of an object read into a struct whose one field, of kind
    [string], has the name [name]: each key is unquoted and looked up; the
    value of a key that matches is stored, the value of any other key is
    skipped. *)
Fixpoint object1 (name : string) (ms : list (bytes * value))
  (dst : string) (saved : option Error) : outcome (string * option Error) :=
  match ms with
  | [] => Ret (dst, saved)
  | (k, v) :: ms' =>
      match unquote k with
      | None => Panic
      | Some key =>
          if fieldMatches name key then
            match storeString v dst with
            | Panic => Panic
            | Ret (dst', err) => object1 name ms' dst' (saveError saved err)
            end
          else object1 name ms' dst saved
      end
  end.

(** A value read into such a struct: an object member by member, [null]
    without effect, anything else as a type error. *)
Definition struct1 (name : string) (v : value) (dst : string)
  : outcome (string * option Error) :=
  match v with
  | Object ms => object1 name ms dst None
  | Null => Ret (dst, None)
  | Array _ => Ret (dst, Some (UnmarshalTypeError "array"))
  | Str lit =>
      match unquote lit with
      | Some _ => Ret (dst, Some (UnmarshalTypeError "string"))
      | None => Panic
      end
  | Number _ => Ret (dst, Some (UnmarshalTypeError "number"))
  | Bool _ => Ret (dst, Some (UnmarshalTypeError "bool"))
  end.

End json.

(** ** The grammar of JSON *)

(** The grammar of RFC 8259 on bytes, as a relation between a value and its
    texts.  It is written from the RFC, not from the scanner: the scanner is
    proved against it.  A string is a sequence of bytes here: the RFC asks
    for UTF-8, which encoding/json does not check while it scans (it repairs
    the string when it unquotes it). *)
Module rfc8259.

(** [ws = *( %x20 / %x09 / %x0A / %x0D )] *)
Definition wsChar (c : ascii) : Prop :=
  c = " "%char ∨ c = "009"%char ∨ c = "010"%char ∨ c = "013"%char.

Definition ws (s : bytes) : Prop := Forall wsChar s.

(** [DIGIT], [digit1-9] and [HEXDIG]. *)
Definition digit (c : ascii) : Prop := 48 <= code c <= 57.

Definition digit19 (c : ascii) : Prop := 49 <= code c <= 57.

Definition hexdig (c : ascii) : Prop :=
  digit c ∨ 65 <= code c <= 70 ∨ 97 <= code c <= 102.

(** The characters that follow the backslash of a short escape. *)
Definition escapes : bytes :=
  [dquote; backslash; "/"; "b"; "f"; "n"; "r"; "t"]%char.

(** [*char], with [char = unescaped / escape (...)]. *)
Inductive chars : bytes → Prop :=
| chars_nil : chars []
| chars_unescaped (c : ascii) (s : bytes) :
    32 <= code c → c ≠ dquote → c ≠ backslash → chars s → chars (c :: s)
| chars_escape (e : ascii) (s : bytes) :
    e ∈ escapes → chars s → chars (backslash :: e :: s)
| chars_unicode (h1 h2 h3 h4 : ascii) (s : bytes) :
    hexdig h1 → hexdig h2 → hexdig h3 → hexdig h4 → chars s →
    chars (backslash :: "u"%char :: h1 :: h2 :: h3 :: h4 :: s).

(** [1*DIGIT] *)
Definition digits1 (s : bytes) : Prop := s ≠ [] ∧ Forall digit s.

(** [int = zero / ( digit1-9 *DIGIT )] *)
Definition int (s : bytes) : Prop :=
  s = ["0"%char] ∨ ∃ d ds, s = d :: ds ∧ digit19 d ∧ Forall digit ds.

(** [frac = decimal-point 1*DIGIT] *)
Definition frac (s : bytes) : Prop := ∃ ds, s = "."%char :: ds ∧ digits1 ds.

(** [exp = e [ minus / plus ] 1*DIGIT] *)
Definition exp (s : bytes) : Prop :=
  ∃ e sign ds,
    s = e :: sign ++ ds
    ∧ (e = "e"%char ∨ e = "E"%char)
    ∧ (sign = [] ∨ sign = ["+"%char] ∨ sign = ["-"%char])
    ∧ digits1 ds.

Definition opt (P : bytes → Prop) (s : bytes) : Prop := s = [] ∨ P s.

(** [number = [ minus ] int [ frac ] [ exp ]] *)
Definition number (s : bytes) : Prop :=
  ∃ m i f e,
    s = m ++ i ++ f ++ e
    ∧ opt (λ m, m = ["-"%char]) m ∧ int i ∧ opt frac f ∧ opt exp e.

(** [value], [object] and [array].  The white space that the RFC puts
    around the six structural characters is written where it falls: after
    an opening bracket, around the colon, after a value and after a
    comma. *)
Inductive text : json.value → bytes → Prop :=
| text_null : text json.Null ["n"; "u"; "l"; "l"]%char
| text_true : text (json.Bool true) ["t"; "r"; "u"; "e"]%char
| text_false : text (json.Bool false) ["f"; "a"; "l"; "s"; "e"]%char
| text_number (lit : bytes) : number lit → text (json.Number lit) lit
| text_string (lit : bytes) :
    chars lit → text (json.Str lit) (dquote :: lit ++ [dquote])
| text_array_empty (w : bytes) :
    ws w → text (json.Array []) ("["%char :: w ++ ["]"%char])
| text_array (w : bytes) (vs : list json.value) (s : bytes) :
    ws w → elements vs s →
    text (json.Array vs) ("["%char :: w ++ s ++ ["]"%char])
| text_object_empty (w : bytes) :
    ws w → text (json.Object []) ("{"%char :: w ++ ["}"%char])
| text_object (w : bytes) (ms : list (bytes * json.value)) (s : bytes) :
    ws w → members ms s →
    text (json.Object ms) ("{"%char :: w ++ s ++ ["}"%char])

(** One or more values between commas, from the first byte of the first. *)
with elements : list json.value → bytes → Prop :=
| elements_one (v : json.value) (s w : bytes) :
    text v s → ws w → elements [v] (s ++ w)
| elements_cons (v : json.value) (vs : list json.value) (s w w' t : bytes) :
    text v s → ws w → ws w' → elements vs t →
    elements (v :: vs) (s ++ w ++ ","%char :: w' ++ t)

(** One or more members between commas, from the quote of the first
    name. *)
with members : list (bytes * json.value) → bytes → Prop :=
| members_one (k : bytes) (v : json.value) (w1 w2 s w3 : bytes) :
    chars k → ws w1 → ws w2 → text v s → ws w3 →
    members [(k, v)]
      (dquote :: k ++ dquote :: w1 ++ ":"%char :: w2 ++ s ++ w3)
| members_cons (k : bytes) (v : json.value)
    (ms : list (bytes * json.value)) (w1 w2 s w3 w4 t : bytes) :
    chars k → ws w1 → ws w2 → text v s → ws w3 → ws w4 → members ms t →
    members ((k, v) :: ms)
      (dquote :: k ++ dquote :: w1 ++ ":"%char :: w2 ++ s ++ w3
       ++ ","%char :: w4 ++ t).

(** [JSON-text = ws value ws] *)
Definition JSONText (v : json.value) (data : bytes) : Prop :=
  ∃ w1 s w2, data = w1 ++ s ++ w2 ∧ ws w1 ∧ text v s ∧ ws w2.

(** The text is the text of some value. *)
Definition valid (data : bytes) : Prop := ∃ v, JSONText v data.

(** The number of arrays and objects around the innermost value. *)
Fixpoint nesting (v : json.value) : Z :=
  match v with
  | json.Array vs => 1 + foldr (λ x acc, Z.max (nesting x) acc) 0 vs
  | json.Object ms => 1 + foldr (λ m acc, Z.max (nesting (snd m)) acc) 0 ms
  | _ => 0
  end.

End rfc8259.

(** ** The members that the [id] field reads *)

(** The names that the decoder takes for the field [id]: the name itself
    and its three other spellings in upper and lower case. *)
Definition idNames : list bytes :=
  list_ascii_of_string <$> ["id"; "Id"; "iD"; "ID"]%string.

(** The name of the member, once unquoted, is one of them. *)
Definition namedID (m : bytes * json.value) : Prop :=
  ∃ key, json.unquote m.1 = Some key ∧ key ∈ idNames.

(** The values that fit a field of kind [string]: a string, and [null],
    which leaves the field as it is. *)
Definition stringOrNull (v : json.value) : bool :=
  match v with
  | json.Str _ | json.Null => true
  | _ => false
  end.

(** ** What the proofs about the scanner speak of *)

(** The first byte of [rest], if there is one, is none of the [bad] ones. *)
Definition noneOf (bad : ascii → bool) (rest : bytes) : Prop :=
  match rest with
  | [] => True
  | c :: _ => bad c = false
  end.

(** What may follow a value: the end of the text, white space, a comma or
    a closing bracket. *)
Definition follows (rest : bytes) : Prop :=
  match rest with
  | [] => True
  | c :: _ => rfc8259.wsChar c ∨ c = ","%char ∨ c = "]"%char ∨ c = "}"%char
  end.

(** The bytes that a value may start with. *)
Definition startsValue (c : ascii) : bool :=
  Ascii.eqb c "{" || Ascii.eqb c "[" || Ascii.eqb c dquote
  || Ascii.eqb c "-" || json.isDigit c
  || Ascii.eqb c "t" || Ascii.eqb c "f" || Ascii.eqb c "n".

(** The bytes that [DecodeRune] reads after the first one are not ASCII. *)
Definition highs (k : nat) (s : bytes) : Prop :=
  (k <= length s)%nat ∧ Forall (λ b, 128 <= code b) (take k s).

Scheme text_min := Minimality for rfc8259.text Sort Prop
  with elements_min := Minimality for rfc8259.elements Sort Prop
  with members_min := Minimality for rfc8259.members Sort Prop.
Combined Scheme text_mutind from text_min, elements_min, members_min.

(** What the grammar says of the members of an object: each name is the
    characters of a string, and so is each value that is a string. *)
Definition goodMember (m : bytes * json.value) : Prop :=
  rfc8259.chars m.1 ∧ ∀ lit, m.2 = json.Str lit → rfc8259.chars lit.

(** ** The client *)

(** The fields of [Account] that catalog.go reads. *)
Record Account : Type := {
  APIVersion : string;
  BusinessID : string;
  AccessToken : string
}.

(** The fields of [ProductInput] that catalog.go reads; [Price] is an
    [int64]. *)
Record ProductInput : Type := {
  Name : string;
  Price : Z;
  Currency : string;
  URL : string;
  ImageURL : string;
  RetailerID : string;
  Description : string
}.

Definition MethodGet : string := "GET".
Definition MethodPost : string := "POST".
Definition MethodDelete : string := "DELETE".

(** What catalog.go takes from the rest of the package: the client and its
    base URL, the call context, the transport behind [doRequest] with the
    errors it reports and the state of the world it acts on, and the list
    responses with the way encoding/json stores a value into them. *)
Class Env : Type := {
  Client : Type;
  getBaseURL : Client → string;
  Ctx : Type;
  transportError : Type;
  World : Type;
  CatalogInfo : Type;
  CatalogListResponse : Type;
  zeroCatalogListResponse : CatalogListResponse;
  catalogData : CatalogListResponse → option (list CatalogInfo);
  storeCatalogListResponse :
    json.value → CatalogListResponse
    → outcome (CatalogListResponse * option json.Error);
  ProductInfo : Type;
  ProductListResponse : Type;
  zeroProductListResponse : ProductListResponse;
  productData : ProductListResponse → option (list ProductInfo);
  storeProductListResponse :
    json.value → ProductListResponse
    → outcome (ProductListResponse * option json.Error);
  roundTrip :
    Client → World → Ctx → string → string → option (gmap string string)
    → string → (bytes * option transportError) * World
}.

(** A call of [doRequest], as the transport sees it. *)
Record Request `{Env} : Type := {
  reqCtx : Ctx;
  reqMethod : string;
  reqURL : string;
  reqBody : option (gmap string string);
  reqToken : string
}.

(** The errors of the operations: the error of the transport as it is, and
    [fmt.Errorf("failed to parse response: %w", err)] around an error of
    [json.Unmarshal]. *)
Inductive error `{Env} : Type :=
| RequestError (e : transportError)
| DecodeError (cause : json.Error).

(** The state the operations run in: the world of the transport and the
    requests sent so far, the oldest first. *)
Record State `{Env} : Type := {
  world : World;
  sent : list Request
}.

(** A computation reads and writes the state and returns or panics. *)
Definition M `{Env} (A : Type) : Type := State → outcome A * State.

#[export] Instance M_ret `{Env} : MRet M := λ A a st, (Ret a, st).

#[export] Instance M_bind `{Env} : MBind M :=
  λ A B k m st,
    match m st with
    | (Ret a, st') => k a st'
    | (Panic, st') => (Panic, st')
    end.

Definition lift `{Env} {A : Type} (o : outcome A) : M A := λ st, (o, st).

Section Client.
Context `{Env}.
Local Open Scope string_scope.

(** Modelled from the spec: [doRequest(context, method, url, jsonBody,
    accessToken) -> (responseBytes, error)], the transport collaborator,
    which is not in catalog.go.  It sends one request and gives back what
    the transport answers. *)
Definition doRequest (c : Client) (ctx : Ctx) (method url : string)
  (body : option (gmap string string)) (accessToken : string)
  : M (bytes * option transportError) :=
  λ st,
    let '(resp, w) := roundTrip c (world st) ctx method url body accessToken in
    (Ret resp,
     {| world := w;
        sent := sent st ++ [{| reqCtx := ctx; reqMethod := method;
                               reqURL := url; reqBody := body;
                               reqToken := accessToken |}] |}).

(** Modelled from the spec: the single-resource envelope with an [id]
    field, [ProductCreateResponse], which is not in catalog.go; the
    anonymous struct of [CreateCatalog] is the same. *)
Record idResponse : Type := { ID : string }.

Definition storeIDResponse (v : json.value) (resp : idResponse)
  : outcome (idResponse * option json.Error) :=
  match json.struct1 "id" v (ID resp) with
  | Ret (s, err) => Ret ({| ID := s |}, err)
  | Panic => Panic
  end.

(** [buildCatalogsURL] *)
Definition buildCatalogsURL (c : Client) (account : Account) : string :=
  getBaseURL c +:+ "/" +:+ APIVersion account +:+ "/" +:+ BusinessID account
  +:+ "/owned_product_catalogs".

(** [buildCatalogProductsURL] *)
Definition buildCatalogProductsURL (c : Client) (account : Account)
  (catalogID : string) : string :=
  getBaseURL c +:+ "/" +:+ APIVersion account +:+ "/" +:+ catalogID
  +:+ "/products".

(** [buildProductURL] *)
Definition buildProductURL (c : Client) (account : Account)
  (productID : string) : string :=
  getBaseURL c +:+ "/" +:+ APIVersion account +:+ "/" +:+ productID.

(** [CreateCatalog] *)
Definition CreateCatalog (c : Client) (ctx : Ctx) (account : Account)
  (name : string) : M (string * option error) :=
  let apiURL := buildCatalogsURL c account in
  let body : gmap string string := <["name" := name]> ∅ in
  '(respBody, err) ←
    doRequest c ctx MethodPost apiURL (Some body) (AccessToken account);
  match err with
  | Some e => mret ("", Some (RequestError e))
  | None =>
      '(resp, err) ←
        lift (json.Unmarshal storeIDResponse respBody {| ID := "" |});
      match err with
      | Some e => mret ("", Some (DecodeError e))
      | None => mret (ID resp, None)
      end
  end.

(** [ListCatalogs] *)
Definition ListCatalogs (c : Client) (ctx : Ctx) (account : Account)
  : M (option (list CatalogInfo) * option error) :=
  let apiURL := buildCatalogsURL c account in
  '(respBody, err) ←
    doRequest c ctx MethodGet apiURL None (AccessToken account);
  match err with
  | Some e => mret (None, Some (RequestError e))
  | None =>
      '(resp, err) ←
        lift (json.Unmarshal storeCatalogListResponse respBody
                zeroCatalogListResponse);
      match err with
      | Some e => mret (None, Some (DecodeError e))
      | None => mret (catalogData resp, None)
      end
  end.

(** [DeleteCatalog] *)
Definition DeleteCatalog (c : Client) (ctx : Ctx) (account : Account)
  (catalogID : string) : M (option error) :=
  let apiURL :=
    getBaseURL c +:+ "/" +:+ APIVersion account +:+ "/" +:+ catalogID in
  '(_, err) ←
    doRequest c ctx MethodDelete apiURL None (AccessToken account);
  mret (RequestError <$> err).

(** [ListCatalogProducts] *)
Definition ListCatalogProducts (c : Client) (ctx : Ctx) (account : Account)
  (catalogID : string) : M (option (list ProductInfo) * option error) :=
  let apiURL := buildCatalogProductsURL c account catalogID in
  let params : gmap string (list string) := ∅ in
  let params :=
    url.Add "fields"
      "id,name,price,currency,url,image_url,retailer_id,description"
      params in
  let apiURL := apiURL +:+ "?" +:+ url.Encode params in
  '(respBody, err) ←
    doRequest c ctx MethodGet apiURL None (AccessToken account);
  match err with
  | Some e => mret (None, Some (RequestError e))
  | None =>
      '(resp, err) ←
        lift (json.Unmarshal storeProductListResponse respBody
                zeroProductListResponse);
      match err with
      | Some e => mret (None, Some (DecodeError e))
      | None => mret (productData resp, None)
      end
  end.

(** The body that [CreateProduct] sends. *)
Definition createProductBody (product : ProductInput)
  : gmap string string :=
  let priceStr := strconv.FormatInt (Price product) 10 in
  let body : gmap string string :=
    <["name" := Name product]>
      (<["price" := priceStr]>
         (<["currency" := Currency product]>
            (<["url" := URL product]>
               (<["image_url" := ImageURL product]>
                  (<["retailer_id" := RetailerID product]> ∅))))) in
  if negb (String.eqb (Description product) "")
  then <["description" := Description product]> body
  else body.

(** [CreateProduct] *)
Definition CreateProduct (c : Client) (ctx : Ctx) (account : Account)
  (catalogID : string) (product : ProductInput)
  : M (string * option error) :=
  let apiURL := buildCatalogProductsURL c account catalogID in
  let body := createProductBody product in
  '(respBody, err) ←
    doRequest c ctx MethodPost apiURL (Some body) (AccessToken account);
  match err with
  | Some e => mret ("", Some (RequestError e))
  | None =>
      '(resp, err) ←
        lift (json.Unmarshal storeIDResponse respBody {| ID := "" |});
      match err with
      | Some e => mret ("", Some (DecodeError e))
      | None => mret (ID resp, None)
      end
  end.

(** The body that [UpdateProduct] sends: the statements of the source in
    their order, each on the map the one before has left. *)
Definition updateProductBody (product : ProductInput)
  : gmap string string :=
  let body : gmap string string := ∅ in
  let body :=
    if negb (String.eqb (Name product) "")
    then <["name" := Name product]> body else body in
  let body :=
    if (0 <? Price product)%Z
    then <["price" := strconv.FormatInt (Price product) 10]> body
    else body in
  let body :=
    if negb (String.eqb (Currency product) "")
    then <["currency" := Currency product]> body else body in
  let body :=
    if negb (String.eqb (URL product) "")
    then <["url" := URL product]> body else body in
  let body :=
    if negb (String.eqb (ImageURL product) "")
    then <["image_url" := ImageURL product]> body else body in
  let body :=
    if negb (String.eqb (Description product) "")
    then <["description" := Description product]> body else body in
  body.

(** [UpdateProduct] *)
Definition UpdateProduct (c : Client) (ctx : Ctx) (account : Account)
  (productID : string) (product : ProductInput) : M (option error) :=
  let apiURL := buildProductURL c account productID in
  let body := updateProductBody product in
  '(_, err) ←
    doRequest c ctx MethodPost apiURL (Some body) (AccessToken account);
  mret (RequestError <$> err).

(** [DeleteProduct] *)
Definition DeleteProduct (c : Client) (ctx : Ctx) (account : Account)
  (productID : string) : M (option error) :=
  let apiURL := buildProductURL c account productID in
  '(_, err) ←
    doRequest c ctx MethodDelete apiURL None (AccessToken account);
  mret (RequestError <$> err).

(** *** The operations as one family *)

(** A call of one of the seven operations, with its own arguments. *)
Inductive call : Type :=
| CallCreateCatalog (name : string)
| CallListCatalogs
| CallDeleteCatalog (catalogID : string)
| CallListCatalogProducts (catalogID : string)
| CallCreateProduct (catalogID : string) (product : ProductInput)
| CallUpdateProduct (productID : string) (product : ProductInput)
| CallDeleteProduct (productID : string).

(** What the call returns. *)
Definition resultOf (k : call) : Type :=
  match k with
  | CallCreateCatalog _ | CallCreateProduct _ _ => (string * option error)%type
  | CallListCatalogs => (option (list CatalogInfo) * option error)%type
  | CallListCatalogProducts _ =>
      (option (list ProductInfo) * option error)%type
  | CallDeleteCatalog _ | CallUpdateProduct _ _ | CallDeleteProduct _ =>
      option error
  end.

Definition run (c : Client) (ctx : Ctx) (account : Account) (k : call)
  : M (resultOf k) :=
  match k with
  | CallCreateCatalog name => CreateCatalog c ctx account name
  | CallListCatalogs => ListCatalogs c ctx account
  | CallDeleteCatalog catalogID => DeleteCatalog c ctx account catalogID
  | CallListCatalogProducts catalogID =>
      ListCatalogProducts c ctx account catalogID
  | CallCreateProduct catalogID product =>
      CreateProduct c ctx account catalogID product
  | CallUpdateProduct productID product =>
      UpdateProduct c ctx account productID product
  | CallDeleteProduct productID => DeleteProduct c ctx account productID
  end.

(** The result of a call that fails with [e]: the zero value of what it
    returns (the empty string, the nil slice, or nothing) and the error. *)
Definition failure (k : call) (e : error) : resultOf k :=
  match k with
  | CallCreateCatalog _ | CallCreateProduct _ _ => ("", Some e)
  | CallListCatalogs => (None, Some e)
  | CallListCatalogProducts _ => (None, Some e)
  | CallDeleteCatalog _ | CallUpdateProduct _ _ | CallDeleteProduct _ =>
      Some e
  end.

(** The operations that decode the body of the response. *)
Definition decodes (k : call) : bool :=
  match k with
  | CallCreateCatalog _ | CallListCatalogs | CallListCatalogProducts _
  | CallCreateProduct _ _ => true
  | _ => false
  end.

(** The query string of [ListCatalogProducts], as it is on the wire. *)
Definition fieldsQuery : string :=
  "fields=id%2Cname%2Cprice%2Ccurrency%2Curl%2Cimage_url%2Cretailer_id%2Cdescription".

(** The three shapes of URL of section 4.1 of the specification. *)
Definition collectionURL (base apiVersion businessID : string) : string :=
  base +:+ "/" +:+ apiVersion +:+ "/" +:+ businessID
  +:+ "/owned_product_catalogs".

Definition productsURL (base apiVersion catalogID : string) : string :=
  base +:+ "/" +:+ apiVersion +:+ "/" +:+ catalogID +:+ "/products".

Definition resourceURL (base apiVersion id : string) : string :=
  base +:+ "/" +:+ apiVersion +:+ "/" +:+ id.

(** The answer of the transport to a request in a state. *)
Definition answer (c : Client) (st : State) (r : Request)
  : (bytes * option transportError) * World :=
  roundTrip c (world st) (reqCtx r) (reqMethod r) (reqURL r) (reqBody r)
    (reqToken r).

(** The state after a request and its answer. *)
Definition after (c : Client) (st : State) (r : Request) : State :=
  {| world := snd (answer c st r); sent := sent st ++ [r] |}.


(** The request of each call as the specification describes it: the
    method, the URL of one of the three shapes, the body, and the access
    token of the account. *)
Definition requestOf (c : Client) (ctx : Ctx) (account : Account)
  (k : call) : Request :=
  let base := getBaseURL c in
  let ver := APIVersion account in
  let mk (method url : string) (body : option (gmap string string)) :=
    {| reqCtx := ctx; reqMethod := method; reqURL := url; reqBody := body;
       reqToken := AccessToken account |} in
  match k with
  | CallCreateCatalog name =>
      mk "POST" (collectionURL base ver (BusinessID account))
         (Some {["name" := name]})
  | CallListCatalogs =>
      mk "GET" (collectionURL base ver (BusinessID account)) None
  | CallDeleteCatalog catalogID =>
      mk "DELETE" (resourceURL base ver catalogID) None
  | CallListCatalogProducts catalogID =>
      mk "GET" (productsURL base ver catalogID +:+ "?" +:+ fieldsQuery) None
  | CallCreateProduct catalogID product =>
      mk "POST" (productsURL base ver catalogID)
         (Some (createProductBody product))
  | CallUpdateProduct productID product =>
      mk "POST" (resourceURL base ver productID)
         (Some (updateProductBody product))
  | CallDeleteProduct productID =>
      mk "DELETE" (resourceURL base ver productID) None
  end.

(** What an operation that decodes does with the answer of the transport:
    the error of the transport comes first, then the error of
    [json.Unmarshal], and only then the result. *)
Definition decoded {T A : Type}
  (store : json.value → T → outcome (T * option json.Error))
  (zero : T) (get : T → A) (none : A)
  (resp : bytes * option transportError) : outcome (A * option error) :=
  match resp with
  | (_, Some e) => Ret (none, Some (RequestError e))
  | (respBody, None) =>
      match json.Unmarshal store respBody zero with
      | Panic => Panic
      | Ret (_, Some e) => Ret (none, Some (DecodeError e))
      | Ret (v, None) => Ret (get v, None)
      end
  end.

(** The error that a result carries, if any. *)
Definition errorOf (k : call) : resultOf k → option error :=
  match k return resultOf k → option error with
  | CallCreateCatalog _ | CallCreateProduct _ _ => λ r, snd r
  | CallListCatalogs => λ r, snd r
  | CallListCatalogProducts _ => λ r, snd r
  | CallDeleteCatalog _ | CallUpdateProduct _ _ | CallDeleteProduct _ =>
      λ r, r
  end.

(** The two operations whose response is read into a list, by a store that
    catalog.go takes from the rest of the package. *)
Definition listsData (k : call) : bool :=
  match k with
  | CallListCatalogs | CallListCatalogProducts _ => true
  | _ => false
  end.

(** The method of each operation. *)
Definition methodOf (k : call) : string :=
  match k with
  | CallCreateCatalog _ | CallCreateProduct _ _ | CallUpdateProduct _ _ =>
      MethodPost
  | CallListCatalogs | CallListCatalogProducts _ => MethodGet
  | CallDeleteCatalog _ | CallDeleteProduct _ => MethodDelete
  end.

End Client.

(** ** A transport for the examples *)

(** The [data] member of an envelope, as the list of its elements. *)
Definition storeEnvelope (v : json.value) (resp : option (list json.value))
  : outcome (option (list json.value) * option json.Error) :=
  match v with
  | json.Object ms =>
      Ret (foldl (λ acc m,
                    match m with
                    | (k, json.Array vs) =>
                        if bool_decide (k = js "data") then Some vs else acc
                    | _ => acc
                    end) resp ms, None)
  | json.Null => Ret (resp, None)
  | _ => Ret (resp, Some (json.UnmarshalTypeError "value"))
  end.

(** A transport that answers every request with [reply], counts the requests
    in its world, and whose client is its base URL. *)
Definition fixedEnv (reply : bytes * option string) : Env := {|
  Client := string;
  getBaseURL := λ c, c;
  Ctx := unit;
  transportError := string;
  World := nat;
  CatalogInfo := json.value;
  CatalogListResponse := option (list json.value);
  zeroCatalogListResponse := None;
  catalogData := λ r, r;
  storeCatalogListResponse := storeEnvelope;
  ProductInfo := json.value;
  ProductListResponse := option (list json.value);
  zeroProductListResponse := None;
  productData := λ r, r;
  storeProductListResponse := storeEnvelope;
  roundTrip := λ _ w _ _ _ _ _, (reply, S w)
|}.

Definition state0 (E : Env) (w : @World E) : @State E :=
  {| world := w; sent := [] |}.

Definition acct : Account :=
  {| APIVersion := "v21.0"; BusinessID := "biz42"; AccessToken := "tok" |}.

Definition shirt : ProductInput :=
  {| Name := "Shirt"; Price := 1999; Currency := "USD"; URL := "https://x/y";
     ImageURL := "https://x/img.png"; RetailerID := "sku-1";
     Description := "" |}.

(** The body of the example of the specification. *)
Definition shirtBody : gmap string string :=
  {[ "name" := "Shirt"; "price" := "1999"; "currency" := "USD";
     "url" := "https://x/y"; "image_url" := "https://x/img.png";
     "retailer_id" := "sku-1" ]}%string.

(** ** Decimal numerals *)

(** The number that the digits of [s] denote after the digits of [acc]. *)
Fixpoint decimalFrom (acc : Z) (s : string) : Z :=
  match s with
  | EmptyString => acc
  | String c s' => decimalFrom (acc * 10 + (code c - code "0")) s'
  end.

Definition decimalValue (s : string) : Z := decimalFrom 0 s.

(** Every character of [s] is one of the ten digits. *)
Fixpoint allDigits (s : string) : bool :=
  match s with
  | EmptyString => true
  | String c s' => between "0" "9" c && allDigits s'
  end.

(** A canonical decimal numeral of a positive integer: digits only, at
    least one, and the first one not zero. *)
Definition isDecimalNumeral (s : string) : bool :=
  match s with
  | EmptyString => false
  | String c _ => negb (Ascii.eqb c "0") && allDigits s
  end.

(** The number that a numeral with an optional minus sign denotes. *)
Definition signedDecimalValue (s : string) : Z :=
  match s with
  | String c s' =>
      if Ascii.eqb c "-" then - decimalValue s' else decimalValue s
  | EmptyString => 0
  end.

(** ** Plain identifiers *)

(** A printable ASCII byte other than the quote and the backslash: what a
    JSON string holds as it is. *)
Definition plainByte (c : ascii) : Prop :=
  32 <= code c < 128 ∧ c ≠ dquote ∧ c ≠ backslash.

(** The response [{"id":"..."}] around the bytes of an identifier. *)
Definition idBody (lit : bytes) : bytes :=
  js "{'id':'" ++ lit ++ js "'}".

(** ** Inputs for the examples *)

(** The input without any set field. *)
Definition emptyProduct : ProductInput :=
  {| Name := ""; Price := 0; Currency := ""; URL := ""; ImageURL := "";
     RetailerID := ""; Description := "" |}.

(** An input with every field set. *)
Definition cottonShirt : ProductInput :=
  {| Name := "Shirt"; Price := 1999; Currency := "USD"; URL := "https://x/y";
     ImageURL := "https://x/img.png"; RetailerID := "sku-1";
     Description := "Cotton" |}.

(** * Properties *)

(** ** strconv.FormatInt in base ten *)

Lemma code_digit (d : Z) : 0 <= d < 10 → code (strconv.digit d) = 48 + d.
Proof.
  intros Hd.
  assert (d = 0 ∨ d = 1 ∨ d = 2 ∨ d = 3 ∨ d = 4 ∨ d = 5 ∨ d = 6 ∨ d = 7
          ∨ d = 8 ∨ d = 9) as Hc by lia.
  repeat destruct Hc as [-> | Hc]; try subst d; reflexivity.
Qed.

Lemma digit_between (d : Z) :
  0 <= d < 10 → between "0" "9" (strconv.digit d) = true.
Proof.
  intros Hd. unfold between. rewrite (code_digit d Hd).
  change (code "0") with 48. change (code "9") with 57.
  apply andb_true_iff; split; apply Z.leb_le; lia.
Qed.

Lemma formatBits_value (fuel : nat) : ∀ (u : Z) (a : string),
  0 <= u < 10 ^ Z.of_nat fuel →
  decimalFrom 0 (strconv.formatBits fuel u 10 a) = decimalFrom u a.
Proof.
  induction fuel as [| fuel IH]; intros u a Hu.
  - simpl in *. replace u with 0 by lia. reflexivity.
  - rewrite Nat2Z.inj_succ, Z.pow_succ_r in Hu by lia.
    simpl. destruct (Z.leb_spec 10 u) as [Hge | Hlt].
    + rewrite IH by (split; [apply Z.div_pos | apply Z.div_lt_upper_bound]; lia).
      simpl. rewrite code_digit by (pose proof (Z.mod_pos_bound u 10);
        pose proof (Z.div_mod u 10); lia).
      change (code "0") with 48. f_equal.
      pose proof (Z.div_mod u 10). lia.
    + simpl. rewrite code_digit by lia. change (code "0") with 48.
      f_equal. lia.
Qed.

Lemma formatBits_allDigits (fuel : nat) : ∀ (u : Z) (a : string),
  0 <= u → allDigits a = true →
  allDigits (strconv.formatBits fuel u 10 a) = true.
Proof.
  induction fuel as [| fuel IH]; intros u a Hu Ha; [exact Ha |].
  simpl. destruct (Z.leb_spec 10 u) as [Hge | Hlt].
  - apply IH; [apply Z.div_pos; lia |].
    simpl. rewrite digit_between, Ha; [reflexivity |].
    pose proof (Z.mod_pos_bound u 10). pose proof (Z.div_mod u 10). lia.
  - simpl. rewrite digit_between, Ha by lia. reflexivity.
Qed.

Lemma formatBits_head (fuel : nat) : ∀ (u : Z) (a : string),
  0 < u < 10 ^ Z.of_nat fuel →
  ∃ ch s, strconv.formatBits fuel u 10 a = String ch s ∧ ch ≠ "0"%char.
Proof.
  induction fuel as [| fuel IH]; intros u a Hu.
  - simpl in Hu. lia.
  - rewrite Nat2Z.inj_succ, Z.pow_succ_r in Hu by lia.
    simpl. destruct (Z.leb_spec 10 u) as [Hge | Hlt].
    + apply IH. split; [| apply Z.div_lt_upper_bound; lia].
      apply Z.div_str_pos. lia.
    + exists (strconv.digit u), a. split; [reflexivity |].
      intros Hz. pose proof (code_digit u ltac:(lia)) as Hc.
      rewrite Hz in Hc. change (code "0") with 48 in Hc. lia.
Qed.

(** A positive [int64] is formatted as its canonical decimal numeral. *)
Lemma FormatInt_decimal (i : Z) :
  0 < i < 2 ^ 63 →
  isDecimalNumeral (strconv.FormatInt i 10) = true
  ∧ decimalValue (strconv.FormatInt i 10) = i.
Proof.
  intros Hi. unfold strconv.FormatInt.
  destruct (Z.ltb_spec i 0) as [? | _]; [lia |].
  assert (0 < i < 10 ^ Z.of_nat 64) as Hb.
  { split; [lia |]. eapply Z.lt_trans; [apply Hi |]. reflexivity. }
  split.
  - destruct (formatBits_head 64 i "" Hb) as (ch & s & Heq & Hne).
    pose proof (formatBits_allDigits 64 i "" ltac:(lia) eq_refl) as Hall.
    rewrite Heq in Hall |- *. unfold isDecimalNumeral. rewrite Hall.
    destruct (Ascii.eqb_spec ch "0"); [contradiction | reflexivity].
  - unfold decimalValue. rewrite formatBits_value by lia. reflexivity.
Qed.

(** ** net/url *)

Lemma Encode_fields :
  url.Encode
    (url.Add "fields"
       "id,name,price,currency,url,image_url,retailer_id,description" ∅)
  = "fields=id%2Cname%2Cprice%2Ccurrency%2Curl%2Cimage_url%2Cretailer_id%2Cdescription"%string.
Proof. vm_compute. reflexivity. Qed.

(** * encoding/json against the grammar *)

(** ** Classes of bytes *)

Lemma isSpace_spec (c : ascii) : json.isSpace c = true ↔ rfc8259.wsChar c.
Proof.
  unfold json.isSpace, rfc8259.wsChar.
  rewrite !orb_true_iff, !Ascii.eqb_eq. tauto.
Qed.

Lemma between_spec (lo hi c : ascii) :
  between lo hi c = true ↔ code lo <= code c <= code hi.
Proof. unfold between. rewrite andb_true_iff, !Z.leb_le. tauto. Qed.

Lemma isDigit_spec (c : ascii) : json.isDigit c = true ↔ rfc8259.digit c.
Proof. unfold json.isDigit. rewrite between_spec. reflexivity. Qed.

Lemma isHex_spec (c : ascii) : json.isHex c = true ↔ rfc8259.hexdig c.
Proof.
  unfold json.isHex, rfc8259.hexdig, rfc8259.digit.
  rewrite !orb_true_iff, !between_spec.
  change (code "0") with 48. change (code "9") with 57.
  change (code "a") with 97. change (code "f") with 102.
  change (code "A") with 65. change (code "F") with 70. tauto.
Qed.

Lemma isEscape_spec (e : ascii) :
  json.isEscape e = true ↔ e ∈ rfc8259.escapes.
Proof.
  unfold json.isEscape, rfc8259.escapes.
  rewrite !orb_true_iff, !Ascii.eqb_eq, !elem_of_cons, elem_of_nil. tauto.
Qed.

(** ** The scanner accepts only texts of the grammar *)

(** Equations between concatenations of bytes. *)
Ltac app_eq :=
  repeat (progress simpl || rewrite <- app_assoc); try reflexivity.

Lemma skipSpace_sound (s : bytes) :
  ∃ w, s = w ++ json.skipSpace s ∧ rfc8259.ws w.
Proof.
  induction s as [| c s IH]; simpl.
  - exists []. split; [reflexivity | constructor].
  - destruct (json.isSpace c) eqn:Hc.
    + destruct IH as (w & Hs & Hw). exists (c :: w). split.
      * simpl. congruence.
      * constructor; [by apply isSpace_spec | exact Hw].
    + exists []. split; [reflexivity | constructor].
Qed.

Lemma scanString_sound_aux (n : nat) : ∀ (s lit rest : bytes),
  (length s <= n)%nat →
  json.scanString s = Some (lit, rest) →
  s = lit ++ dquote :: rest ∧ rfc8259.chars lit.
Proof.
  induction n as [| n IH]; intros s lit rest Hn Hs.
  - destruct s; [discriminate | simpl in Hn; lia].
  - destruct s as [| c s1]; [discriminate |]. simpl in Hs, Hn.
    destruct (Ascii.eqb_spec c dquote) as [-> | Hq].
    { inversion Hs; subst. split; [reflexivity | constructor]. }
    destruct (Ascii.eqb_spec c backslash) as [-> | Hb].
    + destruct s1 as [| e s2]; [discriminate |]. simpl in Hn.
      destruct (json.isEscape e) eqn:He.
      * destruct (json.scanString s2) as [[lit' rest'] |] eqn:Hr;
          [| discriminate].
        simpl in Hs. inversion Hs; subst.
        destruct (IH s2 lit' rest ltac:(lia) Hr) as [-> Hc].
        split; [reflexivity |].
        apply rfc8259.chars_escape; [by apply isEscape_spec | exact Hc].
      * destruct (Ascii.eqb_spec e "u") as [-> | _]; [| discriminate].
        destruct s2 as [| h1 [| h2 [| h3 [| h4 s3]]]]; try discriminate.
        simpl in Hn.
        destruct (json.isHex h1) eqn:H1; [| discriminate].
        destruct (json.isHex h2) eqn:H2; [| discriminate].
        destruct (json.isHex h3) eqn:H3; [| discriminate].
        destruct (json.isHex h4) eqn:H4; [| discriminate].
        simpl in Hs.
        destruct (json.scanString s3) as [[lit' rest'] |] eqn:Hr;
          [| discriminate].
        simpl in Hs. inversion Hs; subst.
        destruct (IH s3 lit' rest ltac:(lia) Hr) as [-> Hc].
        split; [reflexivity |].
        apply rfc8259.chars_unicode; try (by apply isHex_spec). exact Hc.
    + destruct (Z.ltb_spec (code c) 0x20) as [_ | Hge]; [discriminate |].
      destruct (json.scanString s1) as [[lit' rest'] |] eqn:Hr;
        [| discriminate].
      simpl in Hs. inversion Hs; subst.
      destruct (IH s1 lit' rest ltac:(lia) Hr) as [-> Hc].
      split; [reflexivity |].
      apply rfc8259.chars_unescaped; (assumption || lia).
Qed.

Lemma scanString_sound (s lit rest : bytes) :
  json.scanString s = Some (lit, rest) →
  s = lit ++ dquote :: rest ∧ rfc8259.chars lit.
Proof. apply (scanString_sound_aux (length s)). lia. Qed.

Lemma scanDigits_sound (s : bytes) : ∀ ds rest,
  json.scanDigits s = (ds, rest) →
  s = ds ++ rest ∧ Forall rfc8259.digit ds.
Proof.
  induction s as [| c s IH]; intros ds rest Hs; simpl in Hs.
  - inversion Hs. split; [reflexivity | constructor].
  - destruct (json.isDigit c) eqn:Hc.
    + destruct (json.scanDigits s) as [ds' rest'].
      inversion Hs; subst.
      destruct (IH ds' rest eq_refl) as [-> Hd].
      split; [reflexivity |]. constructor; [by apply isDigit_spec | exact Hd].
    + inversion Hs. split; [reflexivity | constructor].
Qed.

Lemma scanInt_sound (s i rest : bytes) :
  json.scanInt s = Some (i, rest) → s = i ++ rest ∧ rfc8259.int i.
Proof.
  unfold json.scanInt. destruct s as [| c s]; [discriminate |].
  destruct (Ascii.eqb_spec c "0") as [-> | _].
  - intros Hs. inversion Hs. split; [reflexivity | by left].
  - destruct (between "1" "9" c) eqn:Hc; [| discriminate].
    destruct (json.scanDigits s) as [ds rest'] eqn:Hd. intros Hs.
    inversion Hs; subst.
    destruct (scanDigits_sound _ _ _ Hd) as [-> Hds].
    split; [reflexivity |]. right. exists c, ds.
    split; [reflexivity |]. split; [| exact Hds].
    by apply between_spec in Hc.
Qed.

Lemma scanFrac_sound (s f rest : bytes) :
  json.scanFrac s = Some (f, rest) →
  s = f ++ rest ∧ rfc8259.opt rfc8259.frac f.
Proof.
  unfold json.scanFrac. destruct s as [| c s].
  { intros Hs. inversion Hs. split; [reflexivity | by left]. }
  destruct (Ascii.eqb_spec c ".") as [-> | _].
  - destruct (json.scanDigits s) as [ds rest'] eqn:Hd.
    destruct ds as [| d ds]; [discriminate |]. intros Hs.
    inversion Hs; subst.
    destruct (scanDigits_sound _ _ _ Hd) as [-> Hds].
    split; [reflexivity |]. right. exists (d :: ds).
    split; [reflexivity |]. split; [discriminate | exact Hds].
  - intros Hs. inversion Hs. split; [reflexivity | by left].
Qed.

Lemma scanExp_sound (s e rest : bytes) :
  json.scanExp s = Some (e, rest) →
  s = e ++ rest ∧ rfc8259.opt rfc8259.exp e.
Proof.
  unfold json.scanExp. destruct s as [| c s].
  { intros Hs. inversion Hs. split; [reflexivity | by left]. }
  destruct (Ascii.eqb c "e" || Ascii.eqb c "E") eqn:Hc.
  - assert (c = "e"%char ∨ c = "E"%char) as Hc'.
    { apply orb_true_iff in Hc. rewrite !Ascii.eqb_eq in Hc. exact Hc. }
    assert (∃ sign s2, s = sign ++ s2
              ∧ (sign = [] ∨ sign = ["+"%char] ∨ sign = ["-"%char])
              ∧ match s with
                | g :: s2' =>
                    if Ascii.eqb g "+" || Ascii.eqb g "-" then ([g], s2')
                    else ([], s)
                | [] => ([], s)
                end = (sign, s2)) as (sign & s2 & Hsplit & Hsign & ->).
    { destruct s as [| g s2']; [exists [], []; auto |].
      destruct (Ascii.eqb_spec g "+") as [-> | _];
        [exists ["+"%char], s2'; auto |].
      destruct (Ascii.eqb_spec g "-") as [-> | _];
        [exists ["-"%char], s2'; auto |].
      exists [], (g :: s2'). auto. }
    destruct (json.scanDigits s2) as [ds rest'] eqn:Hd.
    destruct ds as [| d ds]; [discriminate |]. intros Hs.
    inversion Hs; subst.
    destruct (scanDigits_sound _ _ _ Hd) as [-> Hds].
    split; [by app_eq |].
    right. exists c, sign, (d :: ds).
    repeat split; try assumption. discriminate.
  - intros Hs. inversion Hs. split; [reflexivity | by left].
Qed.

Lemma scanNumber_sound (s lit rest : bytes) :
  json.scanNumber s = Some (lit, rest) →
  s = lit ++ rest ∧ rfc8259.number lit.
Proof.
  unfold json.scanNumber.
  assert (∃ m s1, s = m ++ s1 ∧ rfc8259.opt (λ m, m = ["-"%char]) m
            ∧ match s with
              | c :: s' => if Ascii.eqb c "-" then ([c], s') else ([], s)
              | [] => ([], s)
              end = (m, s1)) as (m & s1 & -> & Hm & ->).
  { destruct s as [| c s']; [exists [], []; repeat split; by left |].
    destruct (Ascii.eqb_spec c "-") as [-> | _].
    - exists ["-"%char], s'. repeat split. by right.
    - exists [], (c :: s'). repeat split. by left. }
  destruct (json.scanInt s1) as [[i s2] |] eqn:Hi; [| discriminate].
  simpl. destruct (json.scanFrac s2) as [[f s3] |] eqn:Hf; [| discriminate].
  simpl. destruct (json.scanExp s3) as [[e s4] |] eqn:He; [| discriminate].
  simpl. intros Hs. inversion Hs; subst.
  destruct (scanInt_sound _ _ _ Hi) as [-> Hi'].
  destruct (scanFrac_sound _ _ _ Hf) as [-> Hf'].
  destruct (scanExp_sound _ _ _ He) as [-> He'].
  split; [by app_eq |].
  by exists m, i, f, e.
Qed.

Lemma scanWord_sound (w : bytes) : ∀ s rest,
  json.scanWord w s = Some rest → s = w ++ rest.
Proof.
  induction w as [| a w IH]; intros s rest Hs; simpl in Hs.
  - by inversion Hs.
  - destruct s as [| c s]; [discriminate |].
    destruct (Ascii.eqb_spec a c) as [-> | _]; [| discriminate].
    simpl. f_equal. by apply IH.
Qed.

(** ** The scanner accepts every text of the grammar *)

Lemma follows_noneOf (bad : ascii → bool) (rest : bytes) :
  bad " "%char = false → bad "009"%char = false → bad "010"%char = false →
  bad "013"%char = false → bad ","%char = false → bad "]"%char = false →
  bad "}"%char = false →
  follows rest → noneOf bad rest.
Proof.
  intros H1 H2 H3 H4 H5 H6 H7. destruct rest as [| c rest]; [done |].
  simpl. intros [[-> | [-> | [-> | ->]]] | [-> | [-> | ->]]]; assumption.
Qed.

Lemma skipSpace_ws (w : bytes) : rfc8259.ws w → json.skipSpace w = [].
Proof.
  induction 1 as [| c w Hc _ IH]; [reflexivity |].
  simpl. apply isSpace_spec in Hc. by rewrite Hc.
Qed.

Lemma skipSpace_complete (w rest : bytes) :
  rfc8259.ws w → noneOf json.isSpace rest →
  json.skipSpace (w ++ rest) = rest.
Proof.
  intros Hw Hr. induction Hw as [| c w Hc _ IH]; simpl.
  - destruct rest as [| c rest]; [reflexivity |]. simpl in *.
    by rewrite Hr.
  - apply isSpace_spec in Hc. by rewrite Hc.
Qed.

Lemma scanString_complete (lit : bytes) :
  rfc8259.chars lit →
  ∀ rest, json.scanString (lit ++ dquote :: rest) = Some (lit, rest).
Proof.
  induction 1 as [| c s Hge Hq Hb _ IH | e s He _ IH
                 | h1 h2 h3 h4 s H1 H2 H3 H4 _ IH]; intros rest; simpl.
  - reflexivity.
  - destruct (Ascii.eqb_spec c dquote); [done |].
    destruct (Ascii.eqb_spec c backslash); [done |].
    destruct (Z.ltb_spec (code c) 32); [lia |]. by rewrite IH.
  - apply isEscape_spec in He. by rewrite He, IH.
  - apply isHex_spec in H1, H2, H3, H4. by rewrite H1, H2, H3, H4, IH.
Qed.

Lemma scanDigits_complete (ds rest : bytes) :
  Forall rfc8259.digit ds → noneOf json.isDigit rest →
  json.scanDigits (ds ++ rest) = (ds, rest).
Proof.
  intros Hd Hr. induction Hd as [| c ds Hc _ IH]; simpl.
  - destruct rest as [| c rest]; [reflexivity |]. simpl in *.
    by rewrite Hr.
  - apply isDigit_spec in Hc. by rewrite Hc, IH.
Qed.

Lemma scanInt_complete (i rest : bytes) :
  rfc8259.int i → noneOf json.isDigit rest →
  json.scanInt (i ++ rest) = Some (i, rest).
Proof.
  intros [-> | (d & ds & -> & Hd & Hds)] Hr; [reflexivity |].
  simpl. destruct (Ascii.eqb_spec d "0") as [-> | _].
  { unfold rfc8259.digit19 in Hd. change (code "0") with 48 in Hd. lia. }
  assert (between "1" "9" d = true) as -> by (by apply between_spec).
  by rewrite scanDigits_complete.
Qed.

Lemma digits1_head (ds : bytes) :
  rfc8259.digits1 ds →
  ∃ d ds', ds = d :: ds' ∧ rfc8259.digit d ∧ Forall rfc8259.digit ds.
Proof.
  intros [Hne Hd]. destruct ds as [| d ds']; [done |].
  exists d, ds'. split; [reflexivity |]. split; [| exact Hd].
  by inversion Hd.
Qed.

Lemma scanFrac_complete (f rest : bytes) :
  rfc8259.opt rfc8259.frac f → noneOf json.isDigit rest →
  noneOf (λ c, Ascii.eqb c ".") rest →
  json.scanFrac (f ++ rest) = Some (f, rest).
Proof.
  intros [-> | (ds & -> & Hds)] Hr Hdot.
  - destruct rest as [| c rest]; [reflexivity |]. simpl in *.
    by rewrite Hdot.
  - destruct (digits1_head ds Hds) as (d & ds' & -> & _ & Hall).
    unfold json.scanFrac. change (("."%char :: d :: ds') ++ rest)
      with ("."%char :: (d :: ds') ++ rest).
    cbv beta iota. by rewrite scanDigits_complete.
Qed.

Lemma scanExp_complete (e rest : bytes) :
  rfc8259.opt rfc8259.exp e → noneOf json.isDigit rest →
  noneOf (λ c, Ascii.eqb c "e" || Ascii.eqb c "E") rest →
  json.scanExp (e ++ rest) = Some (e, rest).
Proof.
  intros [-> | (c & sign & ds & -> & Hc & Hsign & Hds)] Hr He.
  - destruct rest as [| c rest]; [reflexivity |]. simpl in *.
    by rewrite He.
  - destruct (digits1_head ds Hds) as (d & ds' & -> & Hd & Hall).
    unfold json.scanExp.
    change ((c :: sign ++ d :: ds') ++ rest)
      with (c :: (sign ++ d :: ds') ++ rest).
    cbv beta iota.
    assert (Ascii.eqb c "e" || Ascii.eqb c "E" = true) as ->.
    { destruct Hc as [-> | ->]; reflexivity. }
    destruct Hsign as [-> | [-> | ->]].
    + change (([] ++ d :: ds') ++ rest) with (d :: ds' ++ rest).
      cbv beta iota.
      assert (Ascii.eqb d "+" || Ascii.eqb d "-" = false) as ->.
      { unfold rfc8259.digit in Hd.
        destruct (Ascii.eqb_spec d "+") as [-> | _];
          [change (code "+") with 43 in Hd; lia |].
        destruct (Ascii.eqb_spec d "-") as [-> | _];
          [change (code "-") with 45 in Hd; lia |]. reflexivity. }
      cbv beta iota.
      change (d :: ds' ++ rest) with ((d :: ds') ++ rest).
      by rewrite scanDigits_complete.
    + change ((["+"%char] ++ d :: ds') ++ rest)
        with ("+"%char :: (d :: ds') ++ rest).
      cbv beta iota.
      change (Ascii.eqb "+" "+" || Ascii.eqb "+" "-") with true.
      cbv beta iota. by rewrite scanDigits_complete.
    + change ((["-"%char] ++ d :: ds') ++ rest)
        with ("-"%char :: (d :: ds') ++ rest).
      cbv beta iota.
      change (Ascii.eqb "-" "+" || Ascii.eqb "-" "-") with true.
      cbv beta iota. by rewrite scanDigits_complete.
Qed.

(** The first byte of an integer part, of a fraction and of an exponent. *)
Lemma int_head (i : bytes) :
  rfc8259.int i → ∃ d i', i = d :: i' ∧ rfc8259.digit d.
Proof.
  intros [-> | (d & ds & -> & Hd & _)].
  - exists "0"%char, []. split; [reflexivity |]. unfold rfc8259.digit.
    change (code "0") with 48. lia.
  - exists d, ds. split; [reflexivity |].
    unfold rfc8259.digit19 in Hd. unfold rfc8259.digit. lia.
Qed.

Lemma tail_noneOf_digit (f e rest : bytes) :
  rfc8259.opt rfc8259.frac f → rfc8259.opt rfc8259.exp e →
  follows rest → noneOf json.isDigit (f ++ e ++ rest).
Proof.
  intros [-> | (ds & -> & _)] He Hr; [| reflexivity].
  destruct He as [-> | (c & sign & ds & -> & Hc & _)].
  - by apply follows_noneOf.
  - simpl. destruct Hc as [-> | ->]; reflexivity.
Qed.

Lemma scanNumber_complete (lit rest : bytes) :
  rfc8259.number lit → follows rest →
  json.scanNumber (lit ++ rest) = Some (lit, rest).
Proof.
  intros (m & i & f & e & -> & Hm & Hi & Hf & He) Hr.
  unfold json.scanNumber.
  assert (match (m ++ i ++ f ++ e) ++ rest with
          | c :: s' => if Ascii.eqb c "-" then ([c], s')
                       else ([], (m ++ i ++ f ++ e) ++ rest)
          | [] => ([], (m ++ i ++ f ++ e) ++ rest)
          end = (m, i ++ f ++ e ++ rest)) as ->.
  { destruct Hm as [-> | ->].
    - destruct (int_head i Hi) as (d & i' & -> & Hd). simpl.
      destruct (Ascii.eqb_spec d "-") as [-> | _].
      + unfold rfc8259.digit in Hd. change (code "-") with 45 in Hd. lia.
      + by app_eq.
    - simpl. by app_eq. }
  rewrite scanInt_complete by (by try apply tail_noneOf_digit).
  simpl.
  rewrite scanFrac_complete; [| done | |].
  - simpl. rewrite scanExp_complete; [by app_eq | done | |].
    + by apply follows_noneOf.
    + by apply follows_noneOf.
  - destruct He as [-> | (c & sign & ds & -> & Hc & _)].
    + by apply follows_noneOf.
    + simpl. destruct Hc as [-> | ->]; reflexivity.
  - destruct He as [-> | (c & sign & ds & -> & Hc & _)].
    + by apply follows_noneOf.
    + simpl. destruct Hc as [-> | ->]; reflexivity.
Qed.

Lemma scanWord_complete (w rest : bytes) :
  json.scanWord w (w ++ rest) = Some rest.
Proof.
  induction w as [| a w IH]; [reflexivity |].
  simpl. by rewrite Ascii.eqb_refl.
Qed.

#[local] Arguments json.scanWord : simpl never.
#[local] Arguments json.scanNumber : simpl never.
#[local] Arguments json.scanString : simpl never.

Lemma scan_sound (fuel : nat) :
  (∀ depth s v rest,
     json.scanValue fuel depth s = Some (v, rest) →
     ∃ p, s = p ++ rest ∧ rfc8259.text v p)
  ∧ (∀ depth s ms rest,
       json.scanMembers fuel depth s = Some (ms, rest) →
       ∃ p, s = p ++ "}"%char :: rest ∧ rfc8259.members ms p)
  ∧ (∀ depth s vs rest,
       json.scanElements fuel depth s = Some (vs, rest) →
       ∃ p, s = p ++ "]"%char :: rest ∧ rfc8259.elements vs p).
Proof.
  induction fuel as [| fuel (IHv & IHm & IHe)];
    [repeat split; intros; discriminate |].
  split; [| split].
  - intros depth s v rest Hs. simpl in Hs.
    destruct s as [| c r]; [discriminate |].
    destruct (Ascii.eqb_spec c "{") as [-> | _].
    { destruct (json.maxNestingDepth <=? depth); [discriminate |].
      destruct (skipSpace_sound r) as (w & Hr & Hw).
      destruct (json.skipSpace r) as [| c' r']; [discriminate |].
      destruct (Ascii.eqb_spec c' "}") as [-> | _].
      - injection Hs as <- <-. exists ("{"%char :: w ++ ["}"%char]).
        split; [by rewrite Hr; app_eq |]. by constructor.
      - destruct (json.scanMembers fuel (depth + 1) (c' :: r'))
          as [[ms rest'] |] eqn:Hm; [| discriminate].
        simpl in Hs. injection Hs as <- <-.
        destruct (IHm _ _ _ _ Hm) as (p & Hp & Hms).
        exists ("{"%char :: w ++ p ++ ["}"%char]).
        split; [by rewrite Hr, Hp; app_eq |]. by constructor. }
    destruct (Ascii.eqb_spec c "[") as [-> | _].
    { destruct (json.maxNestingDepth <=? depth); [discriminate |].
      destruct (skipSpace_sound r) as (w & Hr & Hw).
      destruct (json.skipSpace r) as [| c' r']; [discriminate |].
      destruct (Ascii.eqb_spec c' "]") as [-> | _].
      - injection Hs as <- <-. exists ("["%char :: w ++ ["]"%char]).
        split; [by rewrite Hr; app_eq |]. by constructor.
      - destruct (json.scanElements fuel (depth + 1) (c' :: r'))
          as [[vs rest'] |] eqn:He; [| discriminate].
        simpl in Hs. injection Hs as <- <-.
        destruct (IHe _ _ _ _ He) as (p & Hp & Hvs).
        exists ("["%char :: w ++ p ++ ["]"%char]).
        split; [by rewrite Hr, Hp; app_eq |]. by constructor. }
    destruct (Ascii.eqb_spec c dquote) as [-> | _].
    { destruct (json.scanString r) as [[lit rest'] |] eqn:Hl; [| discriminate].
      simpl in Hs. injection Hs as <- <-.
      destruct (scanString_sound _ _ _ Hl) as [-> Hc].
      exists (dquote :: lit ++ [dquote]). split; [by app_eq |].
      by constructor. }
    destruct (Ascii.eqb c "-" || json.isDigit c).
    { destruct (json.scanNumber (c :: r)) as [[lit rest'] |] eqn:Hl;
        [| discriminate].
      simpl in Hs. injection Hs as <- <-.
      destruct (scanNumber_sound _ _ _ Hl) as [Heq Hn].
      exists lit. split; [exact Heq | by constructor]. }
    destruct (Ascii.eqb_spec c "t") as [-> | _].
    { destruct (json.scanWord _ r) as [rest' |] eqn:Hw; [| discriminate].
      simpl in Hs. injection Hs as <- <-.
      rewrite (scanWord_sound _ _ _ Hw).
      exists ["t"; "r"; "u"; "e"]%char. split; [reflexivity | constructor]. }
    destruct (Ascii.eqb_spec c "f") as [-> | _].
    { destruct (json.scanWord _ r) as [rest' |] eqn:Hw; [| discriminate].
      simpl in Hs. injection Hs as <- <-.
      rewrite (scanWord_sound _ _ _ Hw).
      exists ["f"; "a"; "l"; "s"; "e"]%char.
      split; [reflexivity | constructor]. }
    destruct (Ascii.eqb_spec c "n") as [-> | _]; [| discriminate].
    destruct (json.scanWord _ r) as [rest' |] eqn:Hw; [| discriminate].
    simpl in Hs. injection Hs as <- <-.
    rewrite (scanWord_sound _ _ _ Hw).
    exists ["n"; "u"; "l"; "l"]%char. split; [reflexivity | constructor].
  - intros depth s ms rest Hs. simpl in Hs.
    destruct s as [| q r]; [discriminate |].
    destruct (Ascii.eqb_spec q dquote) as [-> | _]; [| discriminate].
    destruct (json.scanString r) as [[key r1] |] eqn:Hk; [| discriminate].
    simpl in Hs. destruct (scanString_sound _ _ _ Hk) as [-> Hkey].
    destruct (skipSpace_sound r1) as (w1 & Hr1 & Hw1).
    destruct (json.skipSpace r1) as [| colon r2]; [discriminate |].
    destruct (Ascii.eqb_spec colon ":") as [-> | _]; [| discriminate].
    destruct (skipSpace_sound r2) as (w2 & Hr2 & Hw2).
    destruct (json.scanValue fuel depth (json.skipSpace r2))
      as [[v r3] |] eqn:Hv; [| discriminate].
    simpl in Hs. destruct (IHv _ _ _ _ Hv) as (pv & Hpv & Htv).
    destruct (skipSpace_sound r3) as (w3 & Hr3 & Hw3).
    destruct (json.skipSpace r3) as [| d r4]; [discriminate |].
    destruct (Ascii.eqb_spec d ",") as [-> | _].
    + destruct (skipSpace_sound r4) as (w4 & Hr4 & Hw4).
      destruct (json.scanMembers fuel depth (json.skipSpace r4))
        as [[ms' rest'] |] eqn:Hm; [| discriminate].
      simpl in Hs. injection Hs as <- <-.
      destruct (IHm _ _ _ _ Hm) as (pm & Hpm & Htm).
      exists (dquote :: key ++ dquote :: w1 ++ ":"%char :: w2 ++ pv ++ w3
              ++ ","%char :: w4 ++ pm).
      split; [| by constructor].
      rewrite Hr1, Hr2, Hpv, Hr3, Hr4, Hpm. by app_eq.
    + destruct (Ascii.eqb_spec d "}") as [-> | _]; [| discriminate].
      injection Hs as <- <-.
      exists (dquote :: key ++ dquote :: w1 ++ ":"%char :: w2 ++ pv ++ w3).
      split; [| by constructor].
      rewrite Hr1, Hr2, Hpv, Hr3. by app_eq.
  - intros depth s vs rest Hs. simpl in Hs.
    destruct (json.scanValue fuel depth s) as [[v r1] |] eqn:Hv;
      [| discriminate].
    simpl in Hs. destruct (IHv _ _ _ _ Hv) as (pv & Hpv & Htv).
    destruct (skipSpace_sound r1) as (w & Hr1 & Hw).
    destruct (json.skipSpace r1) as [| d r2]; [discriminate |].
    destruct (Ascii.eqb_spec d ",") as [-> | _].
    + destruct (skipSpace_sound r2) as (w' & Hr2 & Hw').
      destruct (json.scanElements fuel depth (json.skipSpace r2))
        as [[vs' rest'] |] eqn:He; [| discriminate].
      simpl in Hs. injection Hs as <- <-.
      destruct (IHe _ _ _ _ He) as (pe & Hpe & Hte).
      exists (pv ++ w ++ ","%char :: w' ++ pe).
      split; [| by constructor].
      rewrite Hpv, Hr1, Hr2, Hpe. by app_eq.
    + destruct (Ascii.eqb_spec d "]") as [-> | _]; [| discriminate].
      injection Hs as <- <-. exists (pv ++ w).
      split; [| by constructor]. rewrite Hpv, Hr1. by app_eq.
Qed.

(** The syntax check accepts only the texts of RFC 8259. *)
Lemma parse_sound (data : bytes) (v : json.value) :
  json.parse data = Some v → rfc8259.JSONText v data.
Proof.
  unfold json.parse. intros Hp.
  destruct (skipSpace_sound data) as (w1 & Hd & Hw1).
  destruct (json.scanValue _ 0 (json.skipSpace data)) as [[v' rest] |] eqn:Hv;
    [| discriminate].
  simpl in Hp.
  destruct (skipSpace_sound rest) as (w2 & Hr & Hw2).
  destruct (json.skipSpace rest); [| discriminate].
  inversion Hp; subst v'.
  destruct (proj1 (scan_sound _) _ _ _ _ Hv) as (p & Hpv & Ht).
  exists w1, p, w2. rewrite app_nil_r in Hr. subst rest.
  split; [congruence | done].
Qed.

(** A number starts with the minus sign or a digit. *)
Lemma number_head (lit : bytes) :
  rfc8259.number lit →
  ∃ c lit', lit = c :: lit' ∧ (Ascii.eqb c "-" || json.isDigit c = true).
Proof.
  intros (m & i & f & e & -> & Hm & Hi & _).
  destruct (int_head i Hi) as (d & i' & -> & Hd).
  destruct Hm as [-> | ->].
  - exists d, (i' ++ f ++ e). split; [reflexivity |].
    apply isDigit_spec in Hd. rewrite Hd. apply orb_true_r.
  - exists "-"%char, ((d :: i') ++ f ++ e). split; reflexivity.
Qed.

Lemma startsValue_not (c : ascii) :
  startsValue c = true →
  json.isSpace c = false ∧ Ascii.eqb c "]" = false
  ∧ Ascii.eqb c "}" = false.
Proof.
  destruct c as [[] [] [] [] [] [] [] []]; vm_compute;
    intros Hc; try discriminate Hc; repeat split.
Qed.

Lemma text_start (v : json.value) (p : bytes) :
  rfc8259.text v p → ∃ c p', p = c :: p' ∧ startsValue c = true.
Proof.
  destruct 1 as [| | | lit Hn | | | | |]; try (by eauto).
  destruct (number_head lit Hn) as (c & lit' & -> & Hc).
  exists c, lit'. split; [reflexivity |]. unfold startsValue.
  apply orb_true_iff in Hc. destruct Hc as [-> | ->];
    rewrite ?orb_true_r; reflexivity.
Qed.

Lemma elements_start (vs : list json.value) (p : bytes) :
  rfc8259.elements vs p → ∃ c p', p = c :: p' ∧ startsValue c = true.
Proof.
  destruct 1 as [v s w Ht _ | v vs s w w' t Ht _ _ _];
    destruct (text_start _ _ Ht) as (c & p' & -> & Hc); eauto.
Qed.

Lemma members_head (ms : list (bytes * json.value)) (p : bytes) :
  rfc8259.members ms p → ∃ p', p = dquote :: p'.
Proof. destruct 1; eauto. Qed.

Lemma text_noSpace (v : json.value) (p rest : bytes) :
  rfc8259.text v p → noneOf json.isSpace (p ++ rest).
Proof.
  intros Ht. destruct (text_start _ _ Ht) as (c & p' & -> & Hc).
  by destruct (startsValue_not c Hc) as (Hsp & _).
Qed.

Lemma members_noSpace (ms : list (bytes * json.value)) (p rest : bytes) :
  rfc8259.members ms p → noneOf json.isSpace (p ++ rest).
Proof. intros Hm. by destruct (members_head _ _ Hm) as (p' & ->). Qed.

Lemma follows_ws (w rest : bytes) :
  rfc8259.ws w → follows rest → follows (w ++ rest).
Proof. intros Hw Hr. destruct Hw; [exact Hr | by left]. Qed.

Lemma nesting_fold_nonneg {A : Type} (f : A → Z) (l : list A) :
  0 <= foldr (λ x acc, Z.max (f x) acc) 0 l.
Proof. induction l; simpl; lia. Qed.

(** The length of a concatenation, in a hypothesis. *)
Ltac len_norm H :=
  repeat (progress (simpl in H; rewrite ?length_app in H)).

Lemma scan_complete (fuel : nat) :
  (∀ v p, rfc8259.text v p → ∀ depth rest,
     (length p < fuel)%nat →
     depth + rfc8259.nesting v <= json.maxNestingDepth →
     follows rest →
     json.scanValue fuel depth (p ++ rest) = Some (v, rest))
  ∧ (∀ ms p, rfc8259.members ms p → ∀ depth rest,
       (length p < fuel)%nat →
       depth + foldr (λ m acc, Z.max (rfc8259.nesting m.2) acc) 0 ms
       <= json.maxNestingDepth →
       json.scanMembers fuel depth (p ++ "}"%char :: rest) = Some (ms, rest))
  ∧ (∀ vs p, rfc8259.elements vs p → ∀ depth rest,
       (S (length p) < fuel)%nat →
       depth + foldr (λ x acc, Z.max (rfc8259.nesting x) acc) 0 vs
       <= json.maxNestingDepth →
       json.scanElements fuel depth (p ++ "]"%char :: rest) = Some (vs, rest)).
Proof.
  induction fuel as [| fuel (IHv & IHm & IHe)];
    [repeat split; intros; lia |].
  split; [| split].
  - intros v p Ht depth rest Hlen Hdepth Hrest.
    destruct Ht as [| | | lit Hn | lit Hc | w Hw | w vs s Hw He
                   | w Hw | w ms s Hw Hm].
    + reflexivity.
    + reflexivity.
    + reflexivity.
    + destruct (number_head lit Hn) as (c & lit' & -> & Hc).
      change ((c :: lit') ++ rest) with (c :: lit' ++ rest).
      cbn [json.scanValue]. rewrite Hc.
      assert (Ascii.eqb c "{" = false ∧ Ascii.eqb c "[" = false
              ∧ Ascii.eqb c dquote = false) as (-> & -> & ->).
      { apply orb_true_iff in Hc. destruct Hc as [Hc | Hc].
        - apply Ascii.eqb_eq in Hc. by subst c.
        - apply isDigit_spec in Hc. unfold rfc8259.digit in Hc.
          repeat split; apply Ascii.eqb_neq; intros ->;
            vm_compute in Hc; destruct Hc as [H1 H2];
            first [by apply H1 | by apply H2]. }
      change (c :: lit' ++ rest) with ((c :: lit') ++ rest).
      by rewrite scanNumber_complete.
    + simpl. rewrite <- app_assoc. simpl.
      by rewrite scanString_complete.
    + simpl in Hdepth. cbn [json.scanValue app]. simpl (Ascii.eqb _ _).
      destruct (Z.leb_spec json.maxNestingDepth depth) as [? | _]; [lia |].
      rewrite <- app_assoc. rewrite skipSpace_complete by done.
      reflexivity.
    + simpl in Hdepth, Hlen. cbn [json.scanValue app].
      simpl (Ascii.eqb _ _).
      pose proof (nesting_fold_nonneg rfc8259.nesting vs).
      destruct (Z.leb_spec json.maxNestingDepth depth) as [? | _]; [lia |].
      destruct (elements_start _ _ He) as (c' & s' & -> & Hc').
      destruct (startsValue_not c' Hc') as (Hsp & Hbr & _).
      rewrite <- !app_assoc.
      rewrite skipSpace_complete by done.
      change ((c' :: s') ++ ["]"%char] ++ rest) with
        (c' :: s' ++ ["]"%char] ++ rest).
      cbv beta iota. rewrite Hbr.
      change (c' :: s' ++ ["]"%char] ++ rest)
        with ((c' :: s') ++ "]"%char :: rest).
      rewrite (IHe _ _ He) by (rewrite ?length_app in *; simpl in *; lia).
      reflexivity.
    + simpl in Hdepth. cbn [json.scanValue app]. simpl (Ascii.eqb _ _).
      destruct (Z.leb_spec json.maxNestingDepth depth) as [? | _]; [lia |].
      rewrite <- app_assoc. rewrite skipSpace_complete by done.
      reflexivity.
    + simpl in Hdepth, Hlen. cbn [json.scanValue app].
      simpl (Ascii.eqb _ _).
      pose proof (nesting_fold_nonneg (λ m : bytes * json.value,
                                         rfc8259.nesting m.2) ms).
      destruct (Z.leb_spec json.maxNestingDepth depth) as [? | _]; [lia |].
      destruct (members_head _ _ Hm) as (s' & ->).
      rewrite <- !app_assoc.
      rewrite skipSpace_complete by done.
      change ((dquote :: s') ++ ["}"%char] ++ rest) with
        (dquote :: s' ++ ["}"%char] ++ rest).
      cbv beta iota. change (Ascii.eqb dquote "}") with false. cbv iota.
      change (dquote :: s' ++ ["}"%char] ++ rest)
        with ((dquote :: s') ++ "}"%char :: rest).
      rewrite (IHm _ _ Hm) by (rewrite ?length_app in *; simpl in *; lia).
      reflexivity.
  - intros ms p Hm depth rest Hlen Hdepth.
    destruct Hm as [k v w1 w2 s w3 Hk Hw1 Hw2 Ht Hw3
                   | k v ms w1 w2 s w3 w4 t Hk Hw1 Hw2 Ht Hw3 Hw4 Hm].
    + replace ((dquote :: k ++ dquote :: w1 ++ ":"%char :: w2 ++ s ++ w3)
               ++ "}"%char :: rest)
        with (dquote :: k ++ dquote :: w1 ++ ":"%char :: w2 ++ s
              ++ w3 ++ "}"%char :: rest) by (by app_eq).
      simpl in Hdepth. len_norm Hlen.
      simpl. rewrite scanString_complete by done. simpl.
      rewrite skipSpace_complete by done. simpl.
      rewrite skipSpace_complete by (by try eapply text_noSpace).
      rewrite (IHv _ _ Ht); [| lia | lia |].
      2: { apply follows_ws; [done |]. simpl. tauto. }
      simpl. rewrite skipSpace_complete by done. reflexivity.
    + replace ((dquote :: k ++ dquote :: w1 ++ ":"%char :: w2 ++ s ++ w3
                ++ ","%char :: w4 ++ t) ++ "}"%char :: rest)
        with (dquote :: k ++ dquote :: w1 ++ ":"%char :: w2 ++ s
              ++ w3 ++ ","%char :: w4 ++ t ++ "}"%char :: rest)
        by (by app_eq).
      simpl in Hdepth. len_norm Hlen.
      simpl. rewrite scanString_complete by done. simpl.
      rewrite skipSpace_complete by done. simpl.
      rewrite skipSpace_complete by (by try eapply text_noSpace).
      rewrite (IHv _ _ Ht); [| lia | lia |].
      2: { apply follows_ws; [done |]. simpl. tauto. }
      simpl. rewrite skipSpace_complete by done. simpl.
      rewrite skipSpace_complete by (by try eapply members_noSpace).
      rewrite (IHm _ _ Hm) by lia. reflexivity.
  - intros vs p He depth rest Hlen Hdepth.
    destruct He as [v s w Ht Hw | v vs s w w' t Ht Hw Hw' He].
    + replace ((s ++ w) ++ "]"%char :: rest)
        with (s ++ w ++ "]"%char :: rest) by (by app_eq).
      simpl in Hdepth. len_norm Hlen.
      simpl. rewrite (IHv _ _ Ht); [| lia | lia |].
      2: { apply follows_ws; [done |]. simpl. tauto. }
      simpl. rewrite skipSpace_complete by done. reflexivity.
    + replace ((s ++ w ++ ","%char :: w' ++ t) ++ "]"%char :: rest)
        with (s ++ w ++ ","%char :: w' ++ t ++ "]"%char :: rest)
        by (by app_eq).
      simpl in Hdepth. len_norm Hlen.
      simpl. rewrite (IHv _ _ Ht); [| lia | lia |].
      2: { apply follows_ws; [done |]. simpl. tauto. }
      simpl. rewrite skipSpace_complete by done. simpl.
      destruct (elements_start _ _ He) as (c' & t' & Heq & Hc').
      destruct (startsValue_not c' Hc') as (Hsp & _).
      rewrite skipSpace_complete by (by subst t).
      rewrite (IHe _ _ He) by lia. reflexivity.
Qed.

(** The syntax check accepts every text of RFC 8259 that is not nested
    deeper than the scanner allows; the fuel of [json.parse] is enough. *)
Lemma parse_complete (data : bytes) (v : json.value) :
  rfc8259.JSONText v data →
  rfc8259.nesting v <= json.maxNestingDepth →
  json.parse data = Some v.
Proof.
  intros (w1 & s & w2 & -> & Hw1 & Ht & Hw2) Hn. unfold json.parse.
  rewrite skipSpace_complete by (by try eapply text_noSpace).
  rewrite (proj1 (scan_complete _) _ _ Ht); simpl.
  - by rewrite skipSpace_ws.
  - rewrite !length_app. lia.
  - lia.
  - destruct Hw2; [done | by left].
Qed.

(** ** Unquoting never gives up on a scanned literal *)

Lemma unquoteLoop_skip (s : bytes) : ∀ k,
  json.unquoteLoop s k = json.unquoteLoop (drop k s) 0.
Proof.
  induction s as [| c s IH]; intros [| k]; try reflexivity.
  simpl. apply IH.
Qed.

Lemma first_spec (p0 : Z) (sz : nat) (lo hi : Z) :
  utf8.first p0 = Some (sz, lo, hi) →
  (sz = 2 ∨ sz = 3 ∨ sz = 4)%nat ∧ 128 <= lo.
Proof.
  unfold utf8.first.
  repeat match goal with
         | |- context [if ?b then _ else _] => destruct b
         end; intros [= <- <- <-]; lia.
Qed.

Lemma DecodeRune_width (c : ascii) (s : bytes) (rr : Z) (size : nat) :
  utf8.DecodeRune (c :: s) = (rr, size) → highs (pred size) s.
Proof.
  unfold utf8.DecodeRune, highs.
  destruct (utf8.first (code c)) as [[[sz lo] hi] |] eqn:Hf.
  2: { intros [= <- <-]. simpl. split; [lia | constructor]. }
  destruct (first_spec _ _ _ _ Hf) as [Hsz Hlo].
  destruct (length (c :: s) <? sz)%nat.
  { intros [= <- <-]. simpl. split; [lia | constructor]. }
  destruct s as [| c1 s].
  { intros [= <- <-]. simpl. split; [lia | constructor]. }
  destruct (Z.ltb_spec (code c1) lo); simpl.
  { intros [= <- <-]. simpl. split; [lia | constructor]. }
  destruct (hi <? code c1); simpl.
  { intros [= <- <-]. simpl. split; [lia | constructor]. }
  destruct (sz <=? 2)%nat.
  { intros [= <- <-]. simpl. split; [lia |]. repeat constructor. lia. }
  destruct s as [| c2 s].
  { intros [= <- <-]. simpl. split; [lia | constructor]. }
  unfold utf8.cont.
  destruct (Z.leb_spec 128 (code c2)); simpl.
  2: { intros [= <- <-]. simpl. split; [lia | constructor]. }
  destruct (code c2 <=? 191); simpl.
  2: { intros [= <- <-]. simpl. split; [lia | constructor]. }
  destruct (sz <=? 3)%nat.
  { intros [= <- <-]. simpl. split; [lia |]. repeat constructor; lia. }
  destruct s as [| c3 s].
  { intros [= <- <-]. simpl. split; [lia | constructor]. }
  destruct (Z.leb_spec 128 (code c3)); simpl.
  2: { intros [= <- <-]. simpl. split; [lia | constructor]. }
  destruct (code c3 <=? 191); simpl.
  2: { intros [= <- <-]. simpl. split; [lia | constructor]. }
  intros [= <- <-]. simpl. split; [lia |]. repeat constructor; lia.
Qed.

Lemma chars_drop_highs (k : nat) : ∀ s,
  rfc8259.chars s → highs k s → rfc8259.chars (drop k s).
Proof.
  induction k as [| k IH]; intros s Hc [Hlen Hh]; [exact Hc |].
  destruct s as [| b s]; [simpl in Hlen; lia |].
  simpl in Hh, Hlen. inversion Hh as [| ? ? Hb Hrest]; subst.
  simpl. apply IH; [| split; [lia | exact Hrest]].
  inversion Hc; subst; try assumption;
    change (code backslash) with 92 in Hb; lia.
Qed.

Lemma unhex_nonneg (h : ascii) : 0 <= url.unhex h.
Proof.
  unfold url.unhex.
  destruct (between "0" "9" h) eqn:H1;
    [apply between_spec in H1; lia |].
  destruct (between "a" "f" h) eqn:H2;
    [apply between_spec in H2; lia |].
  destruct (between "A" "F" h) eqn:H3;
    [apply between_spec in H3; lia | lia].
Qed.

Lemma getu4_nonneg (s : bytes) :
  0 <= json.getu4 s →
  ∃ h1 h2 h3 h4 s',
    s = backslash :: "u"%char :: h1 :: h2 :: h3 :: h4 :: s'.
Proof.
  unfold json.getu4.
  destruct s as [| b [| u [| h1 [| h2 [| h3 [| h4 s']]]]]]; try lia.
  destruct (Ascii.eqb_spec b backslash) as [-> | _]; simpl; [| lia].
  destruct (Ascii.eqb_spec u "u") as [-> | _]; simpl; [| lia].
  intros _. by exists h1, h2, h3, h4, s'.
Qed.

Lemma getu4_hex (h1 h2 h3 h4 : ascii) (s : bytes) :
  rfc8259.hexdig h1 → rfc8259.hexdig h2 → rfc8259.hexdig h3 →
  rfc8259.hexdig h4 →
  0 <= json.getu4 (backslash :: "u"%char :: h1 :: h2 :: h3 :: h4 :: s).
Proof.
  intros H1 H2 H3 H4. apply isHex_spec in H1, H2, H3, H4.
  unfold json.getu4. rewrite H1, H2, H3, H4. simpl.
  pose proof (unhex_nonneg h1). pose proof (unhex_nonneg h2).
  pose proof (unhex_nonneg h3). pose proof (unhex_nonneg h4). lia.
Qed.

Lemma chars_after_unicode (h1 h2 h3 h4 : ascii) (s : bytes) :
  rfc8259.chars (backslash :: "u"%char :: h1 :: h2 :: h3 :: h4 :: s) →
  rfc8259.chars s.
Proof.
  inversion 1 as [| ? ? ? ? Hb | ? ? He | ]; subst; try done.
  unfold rfc8259.escapes in He.
  rewrite !elem_of_cons, elem_of_nil in He.
  destruct He as [He | [He | [He | [He | [He | [He | [He | [He | []]]]]]]]];
    discriminate He.
Qed.

#[local] Arguments utf8.DecodeRune : simpl never.

(** One turn of the loop on the characters of a string succeeds, and what
    it leaves is again the characters of a string. *)
Lemma unquoteStep_chars (c : ascii) (s : bytes) :
  rfc8259.chars (c :: s) →
  ∃ out m, json.unquoteStep (c :: s) = Some (out, m)
           ∧ rfc8259.chars (drop (pred m) s).
Proof.
  inversion 1 as [| ? ? Hge Hq Hb Hs | e s' He Hs
                 | h1 h2 h3 h4 s' H1 H2 H3 H4 Hs]; subst.
  - unfold json.unquoteStep.
    destruct (Ascii.eqb_spec c backslash); [done |].
    destruct (Ascii.eqb_spec c dquote); [done |].
    destruct (Z.ltb_spec (code c) 32); [lia |]. simpl.
    destruct (code c <? utf8.RuneSelf).
    + exists [c], 1%nat. by split.
    + destruct (utf8.DecodeRune (c :: s)) as [rr size] eqn:Hd.
      exists (utf8.EncodeRune rr), size. split; [reflexivity |].
      apply chars_drop_highs; [exact Hs |].
      by eapply DecodeRune_width.
  - unfold rfc8259.escapes in He.
    rewrite !elem_of_cons, elem_of_nil in He.
    destruct He as [-> | [-> | [-> | [-> | [-> | [-> | [-> | [-> | []]]]]]]]];
      eexists _, 2%nat; (split; [reflexivity | exact Hs]).
  - pose proof (getu4_hex h1 h2 h3 h4 s' H1 H2 H3 H4) as Hrr.
    unfold json.unquoteStep.
    change (Ascii.eqb backslash backslash) with true. cbv iota.
    change (Ascii.eqb "u" dquote || Ascii.eqb "u" backslash
            || Ascii.eqb "u" "/" || Ascii.eqb "u" "'") with false.
    change (Ascii.eqb "u" "b") with false.
    change (Ascii.eqb "u" "f") with false.
    change (Ascii.eqb "u" "n") with false.
    change (Ascii.eqb "u" "r") with false.
    change (Ascii.eqb "u" "t") with false.
    change (Ascii.eqb "u" "u") with true. cbv iota.
    set (rr := json.getu4 _) in *.
    destruct (Z.ltb_spec rr 0); [lia |].
    destruct (utf16.IsSurrogate rr).
    2: { exists (utf8.EncodeRune rr), 6%nat. by split. }
    change (drop 6 (backslash :: "u"%char :: h1 :: h2 :: h3 :: h4 :: s'))
      with s'.
    set (rr1 := json.getu4 s').
    destruct (Z.eqb_spec (utf16.DecodeRune rr rr1) utf8.RuneError)
      as [_ | Hdec]; simpl.
    { eexists _, 6%nat. by split. }
    eexists _, 12%nat. split; [reflexivity |].
    assert (0 <= rr1) as Hrr1.
    { unfold utf16.DecodeRune in Hdec.
      destruct (utf16.surr1 <=? rr); simpl in Hdec; [| done].
      destruct (rr <? utf16.surr2); simpl in Hdec; [| done].
      destruct (Z.leb_spec utf16.surr2 rr1); simpl in Hdec; [| done].
      unfold utf16.surr2 in *. lia. }
    destruct (getu4_nonneg s' Hrr1) as (g1 & g2 & g3 & g4 & s'' & ->).
    simpl. by eapply chars_after_unicode.
Qed.

Lemma unquote_total_aux (n : nat) : ∀ lit,
  (length lit <= n)%nat → rfc8259.chars lit →
  is_Some (json.unquoteLoop lit 0).
Proof.
  induction n as [| n IH]; intros lit Hn Hc.
  - destruct lit; [by eexists | simpl in Hn; lia].
  - destruct lit as [| c s]; [by eexists |].
    destruct (unquoteStep_chars c s Hc) as (out & m & Hstep & Hrest).
    cbn [json.unquoteLoop]. rewrite Hstep. simpl.
    rewrite unquoteLoop_skip.
    destruct (IH (drop (pred m) s)) as [rest Hr]; [| exact Hrest |].
    + rewrite length_drop. simpl in Hn. lia.
    + rewrite Hr. by eexists.
Qed.

Lemma unquote_total (lit : bytes) :
  rfc8259.chars lit → is_Some (json.unquote lit).
Proof. apply (unquote_total_aux (length lit)). lia. Qed.

(** ** Texts are at least as long as they are deep *)



(** [json.Valid] says of a text what the grammar says, up to the depth
    that the scanner allows. *)
Lemma Valid_spec (data : bytes) :
  (json.Valid data = true → rfc8259.valid data)
  ∧ (∀ v, rfc8259.JSONText v data →
          rfc8259.nesting v <= json.maxNestingDepth →
          json.Valid data = true).
Proof.
  unfold json.Valid. split.
  - destruct (json.parse data) as [v |] eqn:Hp; [| discriminate].
    intros _. exists v. by apply parse_sound.
  - intros v Hv Hn. by rewrite (parse_complete _ _ Hv Hn).
Qed.

(** ** The store into the [id] struct *)

Lemma fold_I (c : ascii) :
  Ascii.eqb (if between "a" "z" c then byteOf (code c - 32) else c) "I"
  = Ascii.eqb c "i" || Ascii.eqb c "I".
Proof. destruct c as [[] [] [] [] [] [] [] []]; reflexivity. Qed.

Lemma fold_D (c : ascii) :
  Ascii.eqb (if between "a" "z" c then byteOf (code c - 32) else c) "D"
  = Ascii.eqb c "d" || Ascii.eqb c "D".
Proof. destruct c as [[] [] [] [] [] [] [] []]; reflexivity. Qed.

Lemma fieldMatches_id (key : bytes) :
  json.fieldMatches "id" key = true ↔ key ∈ idNames.
Proof.
  unfold json.fieldMatches.
  change idNames
    with [["i"; "d"]; ["I"; "d"]; ["i"; "D"]; ["I"; "D"]]%char.
  rewrite orb_true_iff, !bool_decide_eq_true.
  rewrite !elem_of_cons, elem_of_nil.
  change (json.foldName (list_ascii_of_string "id")) with ["I"; "D"]%char.
  change (list_ascii_of_string "id") with ["i"; "d"]%char.
  split.
  - intros [-> | Hf]; [tauto |].
    destruct key as [| a [| b [| ? ?]]]; try discriminate Hf.
    simpl in Hf. injection Hf as Ha Hb.
    apply Ascii.eqb_eq in Ha, Hb. rewrite fold_I in Ha. rewrite fold_D in Hb.
    apply orb_true_iff in Ha, Hb. rewrite !Ascii.eqb_eq in Ha, Hb.
    destruct Ha as [-> | ->], Hb as [-> | ->]; tauto.
  - intros [-> | [-> | [-> | [-> | []]]]]; auto.
Qed.

Lemma text_Str_chars (lit p : bytes) :
  rfc8259.text (json.Str lit) p → rfc8259.chars lit.
Proof. by inversion 1. Qed.

Lemma members_good (ms : list (bytes * json.value)) (p : bytes) :
  rfc8259.members ms p → Forall goodMember ms.
Proof.
  induction 1 as [k v w1 w2 s w3 Hk _ _ Ht _
                 | k v ms w1 w2 s w3 w4 t Hk _ _ Ht _ _ _ IH];
    repeat constructor; try assumption;
    simpl; intros lit ->; by eapply text_Str_chars.
Qed.

Lemma storeString_total (v : json.value) (dst : string) :
  (∀ lit, v = json.Str lit → rfc8259.chars lit) →
  ∃ s err, json.storeString v dst = Ret (s, err)
           ∧ (err = None ↔ stringOrNull v = true).
Proof.
  intros Hv. destruct v; simpl; try (by eexists _, _; split).
  destruct (unquote_total lit (Hv lit eq_refl)) as [s ->].
  by eexists _, _; split.
Qed.

(** The decoder does not panic on the members of an object of the grammar,
    and an error that is saved stays. *)
Lemma object1_total (name : string) (ms : list (bytes * json.value)) :
  Forall goodMember ms →
  ∀ dst saved, ∃ dst' err,
    json.object1 name ms dst saved = Ret (dst', err)
    ∧ (is_Some saved → err = saved).
Proof.
  induction 1 as [| [k v] ms [Hk Hv] _ IH]; intros dst saved; simpl.
  - by eexists _, _; split.
  - simpl in Hk, Hv. destruct (unquote_total k Hk) as [key ->].
    destruct (json.fieldMatches name key); [| apply IH].
    destruct (storeString_total v dst Hv) as (s & err & -> & _).
    destruct (IH s (json.saveError saved err)) as (dst' & err' & -> & Hs).
    eexists _, _; split; [reflexivity |].
    intros [e ->]. simpl in Hs. apply Hs. by eexists.
Qed.

(** Without a member whose name is [id], nothing is stored. *)
Lemma object1_no_id (ms : list (bytes * json.value)) :
  Forall goodMember ms → Forall (λ m, ¬ namedID m) ms →
  ∀ dst saved, json.object1 "id" ms dst saved = Ret (dst, saved).
Proof.
  induction 1 as [| [k v] ms [Hk Hv] _ IH]; intros Hno dst saved; simpl;
    [reflexivity |].
  inversion Hno as [| ? ? Hkv Hrest]; subst.
  simpl in Hk. destruct (unquote_total k Hk) as [key Hkey]. rewrite Hkey.
  destruct (json.fieldMatches "id" key) eqn:Hm; [| by apply IH].
  exfalso. apply Hkv. exists key. split; [exact Hkey |].
  by apply fieldMatches_id.
Qed.

(** A member whose name is [id] and whose value is neither a string nor
    [null] makes a type error. *)
Lemma object1_bad_id (ms : list (bytes * json.value)) :
  Forall goodMember ms →
  Exists (λ m, namedID m ∧ stringOrNull m.2 = false) ms →
  ∀ dst saved, ∃ dst' e,
    json.object1 "id" ms dst saved = Ret (dst', Some e).
Proof.
  induction 1 as [| [k v] ms [Hk Hv] Hms IH]; intros Hex dst saved;
    [by inversion Hex |].
  simpl in Hk, Hv. simpl.
  destruct (unquote_total k Hk) as [key Hkey]. rewrite Hkey.
  destruct (storeString_total v dst Hv) as (s & err & Hst & Herr).
  inversion Hex as [? ? [(key' & Hkey' & Hin) Hbad] | ? ? Hex']; subst.
  - simpl in Hkey', Hbad. rewrite Hkey in Hkey'. injection Hkey' as <-.
    apply fieldMatches_id in Hin. rewrite Hin, Hst.
    destruct err as [e |]; [| by rewrite (proj1 Herr eq_refl) in Hbad].
    destruct (object1_total "id" ms Hms s (json.saveError saved (Some e)))
      as (dst' & err' & -> & Hs).
    destruct saved as [e0 |]; simpl in Hs |- *;
      rewrite Hs by (by eexists); by eexists _, _.
  - destruct (json.fieldMatches "id" key); [| by apply IH].
    rewrite Hst. by apply IH.
Qed.

(** The store of a JSON text into the [id] struct, by the kind of its
    value. *)
Lemma struct1_id (v : json.value) (data : bytes) (dst : string) :
  rfc8259.JSONText v data →
  match v with
  | json.Null => json.struct1 "id" v dst = Ret (dst, None)
  | json.Object ms =>
      (∃ dst' err, json.struct1 "id" v dst = Ret (dst', err))
      ∧ (Forall (λ m, ¬ namedID m) ms →
         json.struct1 "id" v dst = Ret (dst, None))
      ∧ (Exists (λ m, namedID m ∧ stringOrNull m.2 = false) ms →
         ∃ dst' e, json.struct1 "id" v dst = Ret (dst', Some e))
  | _ => ∃ e, json.struct1 "id" v dst = Ret (dst, Some e)
  end.
Proof.
  intros (w1 & s & w2 & _ & _ & Ht & _).
  destruct v as [| b | lit | lit | vs | ms]; simpl; try (by eexists).
  - destruct (unquote_total lit (text_Str_chars _ _ Ht)) as [u ->].
    by eexists.
  - assert (Forall goodMember ms) as Hgood.
    { inversion Ht; subst; [constructor | by eapply members_good]. }
    split; [| split].
    + destruct (object1_total "id" ms Hgood dst None) as (d & e & -> & _).
      by eexists _, _.
    + intros Hno. by apply object1_no_id.
    + intros Hex. by apply object1_bad_id.
Qed.

(** The members before the first one whose name is [id] are skipped. *)
Lemma object1_skip (ms1 ms2 : list (bytes * json.value)) :
  Forall goodMember ms1 → Forall (λ m, ¬ namedID m) ms1 →
  ∀ dst saved,
    json.object1 "id" (ms1 ++ ms2) dst saved = json.object1 "id" ms2 dst saved.
Proof.
  induction 1 as [| [k v] ms [Hk Hv] _ IH]; intros Hno dst saved;
    [reflexivity |].
  inversion Hno as [| ? ? Hkv Hrest]; subst. simpl.
  simpl in Hk. destruct (unquote_total k Hk) as [key Hkey]. rewrite Hkey.
  destruct (json.fieldMatches "id" key) eqn:Hm; [| by apply IH].
  exfalso. apply Hkv. exists key. split; [exact Hkey |].
  by apply fieldMatches_id.
Qed.

(** The one member whose name is [id], when it holds a string, gives its
    unquoted value. *)
Lemma object1_one_id (ms1 ms2 : list (bytes * json.value))
  (k lit s : bytes) (dst : string) :
  Forall goodMember (ms1 ++ (k, json.Str lit) :: ms2) →
  Forall (λ m, ¬ namedID m) ms1 → Forall (λ m, ¬ namedID m) ms2 →
  namedID (k, json.Str lit) → json.unquote lit = Some s →
  json.object1 "id" (ms1 ++ (k, json.Str lit) :: ms2) dst None
  = Ret (string_of_list_ascii s, None).
Proof.
  intros Hgood Hno1 Hno2 (key & Hkey & Hin) Hs.
  apply Forall_app in Hgood as [Hg1 Hg2].
  inversion Hg2 as [| ? ? _ Hg3]; subst.
  rewrite object1_skip by assumption. simpl in Hkey |- *.
  apply fieldMatches_id in Hin. rewrite Hkey, Hin, Hs. simpl.
  by apply object1_no_id.
Qed.

(** * The client *)

(** ** The requests of the operations *)

Section ClientFacts.
Context `{Env}.
Variables (c : Client) (ctx : Ctx) (account : Account).
Local Open Scope string_scope.

Lemma doRequest_run (method url : string)
  (body : option (gmap string string)) (token : string) (st : State) :
  let r := {| reqCtx := ctx; reqMethod := method; reqURL := url;
              reqBody := body; reqToken := token |} in
  doRequest c ctx method url body token st
  = (Ret (fst (answer c st r)), after c st r).
Proof.
  unfold doRequest, after, answer. simpl.
  destruct (roundTrip c (world st) ctx method url body token) as [resp w].
  reflexivity.
Qed.

Lemma CreateCatalog_run (name : string) (st : State) :
  let r := requestOf c ctx account (CallCreateCatalog name) in
  CreateCatalog c ctx account name st
  = (decoded storeIDResponse {| ID := "" |} ID "" (fst (answer c st r)),
     after c st r).
Proof.
  unfold CreateCatalog, mbind, M_bind. rewrite doRequest_run.
  simpl. rewrite insert_empty.
  fold (buildCatalogsURL c account).
  destruct (fst (answer c st _)) as [respBody [e |]]; simpl; [reflexivity |].
  unfold lift.
  destruct (json.Unmarshal storeIDResponse respBody {| ID := "" |})
    as [[v [e |]] |]; reflexivity.
Qed.

Lemma CreateProduct_run (catalogID : string) (product : ProductInput)
  (st : State) :
  let r := requestOf c ctx account (CallCreateProduct catalogID product) in
  CreateProduct c ctx account catalogID product st
  = (decoded storeIDResponse {| ID := "" |} ID "" (fst (answer c st r)),
     after c st r).
Proof.
  unfold CreateProduct, mbind, M_bind. rewrite doRequest_run. simpl.
  destruct (fst (answer c st _)) as [respBody [e |]]; simpl; [reflexivity |].
  unfold lift.
  destruct (json.Unmarshal storeIDResponse respBody {| ID := "" |})
    as [[v [e |]] |]; reflexivity.
Qed.

Lemma ListCatalogs_run (st : State) :
  let r := requestOf c ctx account CallListCatalogs in
  ListCatalogs c ctx account st
  = (decoded storeCatalogListResponse zeroCatalogListResponse catalogData
       None (fst (answer c st r)),
     after c st r).
Proof.
  unfold ListCatalogs, mbind, M_bind. rewrite doRequest_run. simpl.
  destruct (fst (answer c st _)) as [respBody [e |]]; simpl; [reflexivity |].
  unfold lift.
  destruct (json.Unmarshal _ respBody _) as [[v [e |]] |]; reflexivity.
Qed.

Lemma ListCatalogProducts_run (catalogID : string) (st : State) :
  let r := requestOf c ctx account (CallListCatalogProducts catalogID) in
  ListCatalogProducts c ctx account catalogID st
  = (decoded storeProductListResponse zeroProductListResponse productData
       None (fst (answer c st r)),
     after c st r).
Proof.
  unfold ListCatalogProducts, mbind, M_bind. rewrite Encode_fields.
  rewrite doRequest_run. simpl.
  destruct (fst (answer c st _)) as [respBody [e |]]; simpl; [reflexivity |].
  unfold lift.
  destruct (json.Unmarshal _ respBody _) as [[v [e |]] |]; reflexivity.
Qed.

(** What an operation that does not decode does with the answer. *)
Lemma DeleteCatalog_run (catalogID : string) (st : State) :
  let r := requestOf c ctx account (CallDeleteCatalog catalogID) in
  DeleteCatalog c ctx account catalogID st
  = (Ret (RequestError <$> snd (fst (answer c st r))), after c st r).
Proof.
  unfold DeleteCatalog, mbind, M_bind. rewrite doRequest_run. simpl.
  destruct (fst (answer c st _)) as [respBody err]. reflexivity.
Qed.

Lemma UpdateProduct_run (productID : string) (product : ProductInput)
  (st : State) :
  let r := requestOf c ctx account (CallUpdateProduct productID product) in
  UpdateProduct c ctx account productID product st
  = (Ret (RequestError <$> snd (fst (answer c st r))), after c st r).
Proof.
  unfold UpdateProduct, mbind, M_bind. rewrite doRequest_run. simpl.
  destruct (fst (answer c st _)) as [respBody err]. reflexivity.
Qed.

Lemma DeleteProduct_run (productID : string) (st : State) :
  let r := requestOf c ctx account (CallDeleteProduct productID) in
  DeleteProduct c ctx account productID st
  = (Ret (RequestError <$> snd (fst (answer c st r))), after c st r).
Proof.
  unfold DeleteProduct, mbind, M_bind. rewrite doRequest_run. simpl.
  destruct (fst (answer c st _)) as [respBody err]. reflexivity.
Qed.

(** Every operation sends the one request of its call and nothing else,
    whatever the transport answers. *)
Lemma run_state (k : call) (st : State) :
  snd (run c ctx account k st) = after c st (requestOf c ctx account k).
Proof.
  destruct k; simpl run.
  - rewrite CreateCatalog_run. reflexivity.
  - rewrite ListCatalogs_run. reflexivity.
  - rewrite DeleteCatalog_run. reflexivity.
  - rewrite ListCatalogProducts_run. reflexivity.
  - rewrite CreateProduct_run. reflexivity.
  - rewrite UpdateProduct_run. reflexivity.
  - rewrite DeleteProduct_run. reflexivity.
Qed.

End ClientFacts.

(** ** Options *)

Lemma is_Some_unless {A : Type} (b : bool) (x : A) :
  is_Some (if b then None else Some x) ↔ b = false.
Proof.
  destruct b; split; intros Hs; (done || by apply is_Some_None in Hs).
Qed.

Lemma is_Some_when {A : Type} (b : bool) (x : A) :
  is_Some (if b then Some x else None) ↔ b = true.
Proof.
  destruct b; split; intros Hs; (done || by apply is_Some_None in Hs).
Qed.

(** ** The bodies of the product requests *)

Lemma createProductBody_lookup (product : ProductInput) :
  let body := createProductBody product in
  body !! "name" = Some (Name product)
  ∧ body !! "price" = Some (strconv.FormatInt (Price product) 10)
  ∧ body !! "currency" = Some (Currency product)
  ∧ body !! "url" = Some (URL product)
  ∧ body !! "image_url" = Some (ImageURL product)
  ∧ body !! "retailer_id" = Some (RetailerID product)
  ∧ body !! "description"
    = (if String.eqb (Description product) "" then None
       else Some (Description product)).
Proof.
  unfold createProductBody.
  destruct (String.eqb (Description product) ""); simpl;
    repeat split; by simplify_map_eq.
Qed.

Lemma createProductBody_shirt : createProductBody shirt = shirtBody.
Proof. vm_compute. reflexivity. Qed.

Lemma createProductBody_dom (product : ProductInput) :
  dom (createProductBody product)
  = {["name"; "price"; "currency"; "url"; "image_url"; "retailer_id"]}
    ∪ (if String.eqb (Description product) "" then ∅
       else {["description"]}).
Proof.
  unfold createProductBody.
  destruct (String.eqb (Description product) ""); simpl;
    rewrite !dom_insert_L, dom_empty_L; set_solver.
Qed.

Lemma updateProductBody_lookup (product : ProductInput) :
  let body := updateProductBody product in
  body !! "name"
  = (if String.eqb (Name product) "" then None else Some (Name product))
  ∧ body !! "price"
    = (if 0 <? Price product
       then Some (strconv.FormatInt (Price product) 10) else None)
  ∧ body !! "currency"
    = (if String.eqb (Currency product) "" then None
       else Some (Currency product))
  ∧ body !! "url"
    = (if String.eqb (URL product) "" then None else Some (URL product))
  ∧ body !! "image_url"
    = (if String.eqb (ImageURL product) "" then None
       else Some (ImageURL product))
  ∧ body !! "description"
    = (if String.eqb (Description product) "" then None
       else Some (Description product)).
Proof.
  unfold updateProductBody.
  destruct (String.eqb (Name product) ""), (0 <? Price product),
    (String.eqb (Currency product) ""), (String.eqb (URL product) ""),
    (String.eqb (ImageURL product) ""),
    (String.eqb (Description product) ""); simpl;
    repeat split; by simplify_map_eq.
Qed.

(** ** The contract of the operations *)

Section Contract.
Context `{Env}.
Variables (c : Client) (ctx : Ctx) (account : Account).
Local Open Scope string_scope.

(** C1.  For every product whose price is positive (and an [int64]),
    [CreateProduct] sends one request whose body holds under [price] the
    canonical decimal numeral of the price: digits only, no sign, point or
    exponent, no leading zero, and the numeral denotes the price
    exactly. *)
Theorem CreateProduct_price_is_decimal (catalogID : string)
  (product : ProductInput) (st : State) :
  (0 < Price product < 2 ^ 63)%Z →
  ∃ (req : Request) (body : gmap string string) (price : string),
    sent (snd (CreateProduct c ctx account catalogID product st))
    = (sent st ++ [req])%list
    ∧ reqBody req = Some body
    ∧ body !! "price" = Some price
    ∧ price = strconv.FormatInt (Price product) 10
    ∧ isDecimalNumeral price = true
    ∧ decimalValue price = Price product.
Proof.
  intros Hp.
  exists (requestOf c ctx account (CallCreateProduct catalogID product)),
    (createProductBody product), (strconv.FormatInt (Price product) 10).
  rewrite CreateProduct_run. simpl.
  destruct (FormatInt_decimal (Price product) Hp) as [Hnum Hval].
  repeat split; try assumption.
  apply (createProductBody_lookup product).
Qed.

(** C2.  The body that [UpdateProduct] sends has each of the keys [name],
    [currency], [url], [image_url] and [description] exactly when the
    field of the input is not the empty string, and the key [price]
    exactly when the price is positive. *)
Theorem UpdateProduct_omits_empty_fields (productID : string)
  (product : ProductInput) (st : State) :
  ∃ (req : Request) (body : gmap string string),
    sent (snd (UpdateProduct c ctx account productID product st))
    = (sent st ++ [req])%list
    ∧ reqBody req = Some body
    ∧ (is_Some (body !! "name") ↔ Name product ≠ "")
    ∧ (is_Some (body !! "price") ↔ (0 < Price product)%Z)
    ∧ (is_Some (body !! "currency") ↔ Currency product ≠ "")
    ∧ (is_Some (body !! "url") ↔ URL product ≠ "")
    ∧ (is_Some (body !! "image_url") ↔ ImageURL product ≠ "")
    ∧ (is_Some (body !! "description") ↔ Description product ≠ "").
Proof.
  exists (requestOf c ctx account (CallUpdateProduct productID product)),
    (updateProductBody product).
  rewrite UpdateProduct_run. simpl.
  destruct (updateProductBody_lookup product)
    as (Hn & Hp & Hc & Hu & Hi & Hd).
  rewrite Hn, Hp, Hc, Hu, Hi, Hd.
  split; [reflexivity |]. split; [reflexivity |].
  rewrite !is_Some_unless, !String.eqb_neq, is_Some_when, Z.ltb_lt.
  tauto.
Qed.

(** C3.  The example of the specification: the request is a POST to the
    products URL of catalog [cat123] with the six keys and no
    [description], and the [id] of the answer is returned; and for every
    product the key [description] is there exactly when the description
    is not empty. *)
Theorem CreateProduct_example (st : State) (w : World) :
  roundTrip c (world st) ctx "POST"
    (getBaseURL c +:+ "/" +:+ APIVersion account +:+ "/cat123/products")
    (Some shirtBody) (AccessToken account)
  = ((js "{'id':'pid_1'}", None), w) →
  CreateProduct c ctx account "cat123" shirt st
  = (Ret ("pid_1", None),
     {| world := w;
        sent := sent st ++
          [{| reqCtx := ctx; reqMethod := "POST";
              reqURL := getBaseURL c +:+ "/" +:+ APIVersion account
                        +:+ "/cat123/products";
              reqBody := Some shirtBody;
              reqToken := AccessToken account |}] |})
  ∧ dom shirtBody
    = {["name"; "price"; "currency"; "url"; "image_url"; "retailer_id"]}
  ∧ shirtBody !! "price" = Some "1999"
  ∧ shirtBody !! "description" = None
  ∧ ∀ product : ProductInput,
      is_Some (createProductBody product !! "description")
      ↔ Description product ≠ "".
Proof.
  intros Hrt. split; [| split; [| split; [| split]]].
  - rewrite CreateProduct_run. unfold after, answer. simpl.
    rewrite createProductBody_shirt. unfold productsURL. simpl.
    change ("/" +:+ "cat123" +:+ "/products") with "/cat123/products".
    rewrite Hrt. reflexivity.
  - rewrite <- createProductBody_shirt, createProductBody_dom. simpl.
    set_solver.
  - reflexivity.
  - reflexivity.
  - intros product.
    destruct (createProductBody_lookup product) as (_ & _ & _ & _ & _ & _ & Hd).
    rewrite Hd, is_Some_unless, String.eqb_neq. tauto.
Qed.


(** C6.  The URL of the request of each operation: the catalog collection
    for [CreateCatalog] and [ListCatalogs], the product collection for
    [CreateProduct] and, before the query string, for
    [ListCatalogProducts], and the single resource for [DeleteCatalog],
    [UpdateProduct] and [DeleteProduct]. *)
Theorem request_URLs (k : call) (st : State) :
  reqURL <$> sent (snd (run c ctx account k st))
  = ((reqURL <$> sent st) ++
    [match k with
     | CallCreateCatalog _ | CallListCatalogs =>
         getBaseURL c +:+ "/" +:+ APIVersion account +:+ "/"
         +:+ BusinessID account +:+ "/owned_product_catalogs"
     | CallCreateProduct catalogID _ =>
         getBaseURL c +:+ "/" +:+ APIVersion account +:+ "/"
         +:+ catalogID +:+ "/products"
     | CallListCatalogProducts catalogID =>
         (getBaseURL c +:+ "/" +:+ APIVersion account +:+ "/"
          +:+ catalogID +:+ "/products") +:+ "?" +:+ fieldsQuery
     | CallDeleteCatalog id | CallUpdateProduct id _
     | CallDeleteProduct id =>
         getBaseURL c +:+ "/" +:+ APIVersion account +:+ "/" +:+ id
     end])%list.
Proof.
  rewrite run_state. unfold after. simpl. rewrite fmap_app.
  destruct k; reflexivity.
Qed.

(** C7.  When the transport answers the request of an operation with an
    error, the operation returns the zero value of its result and that
    error as it is; it has sent the one request and no other. *)
Theorem transport_error_is_returned (k : call) (st : State)
  (respBody : bytes) (e : transportError) (w : World) :
  answer c st (requestOf c ctx account k) = ((respBody, Some e), w) →
  run c ctx account k st
  = (Ret (failure k (RequestError e)),
     {| world := w;
        sent := (sent st ++ [requestOf c ctx account k])%list |}).
Proof.
  intros Ha. destruct k; simpl run;
    [ rewrite CreateCatalog_run | rewrite ListCatalogs_run
    | rewrite DeleteCatalog_run | rewrite ListCatalogProducts_run
    | rewrite CreateProduct_run | rewrite UpdateProduct_run
    | rewrite DeleteProduct_run ];
    unfold after; cbv zeta; rewrite Ha; reflexivity.
Qed.

(** C10.  For one and the same identifier, [DeleteCatalog],
    [DeleteProduct] and [UpdateProduct] send their request to one and the
    same URL, the base URL, the API version and the identifier; the two
    deletions are the same computation. *)
Theorem resource_URL_shared (s : string) (product : ProductInput)
  (st : State) :
  let u := getBaseURL c +:+ "/" +:+ APIVersion account +:+ "/" +:+ s in
  reqURL <$> sent (snd (DeleteCatalog c ctx account s st))
  = ((reqURL <$> sent st) ++ [u])%list
  ∧ reqURL <$> sent (snd (DeleteProduct c ctx account s st))
    = ((reqURL <$> sent st) ++ [u])%list
  ∧ reqURL <$> sent (snd (UpdateProduct c ctx account s product st))
    = ((reqURL <$> sent st) ++ [u])%list
  ∧ buildProductURL c account s = u
  ∧ DeleteCatalog c ctx account s st = DeleteProduct c ctx account s st.
Proof.
  rewrite DeleteCatalog_run, DeleteProduct_run, UpdateProduct_run.
  unfold after. simpl. rewrite !fmap_app. repeat split; reflexivity.
Qed.




End Contract.

(** ** The contract on the example transport *)

Lemma CreateProduct_price_is_decimal_witness :
  ∃ (req : @Request (fixedEnv ([], None))) (body : gmap string string)
    (price : string),
    sent (snd (CreateProduct (H := fixedEnv ([], None))
                 "https://g" () acct "cat123" shirt
                 (state0 (fixedEnv ([], None)) 0%nat)))
    = [req]
    ∧ reqBody req = Some body
    ∧ body !! "price" = Some price
    ∧ price = strconv.FormatInt 1999 10
    ∧ isDecimalNumeral price = true
    ∧ decimalValue price = 1999.
Proof.
  apply (@CreateProduct_price_is_decimal (fixedEnv ([], None))
           "https://g" () acct "cat123" shirt
           (state0 (fixedEnv ([], None)) 0%nat)).
  simpl. lia.
Defined.

Lemma CreateProduct_example_witness :
  fst (CreateProduct (H := fixedEnv (js "{'id':'pid_1'}", None))
         "https://g" () acct "cat123" shirt
         (state0 (fixedEnv (js "{'id':'pid_1'}", None)) 0%nat))
  = Ret ("pid_1"%string, None).
Proof.
  exact (f_equal fst
           (proj1 (@CreateProduct_example
                     (fixedEnv (js "{'id':'pid_1'}", None))
                     "https://g" () acct
                     (state0 (fixedEnv (js "{'id':'pid_1'}", None)) 0%nat)
                     1%nat eq_refl))).
Defined.

Lemma transport_error_is_returned_witness :
  fst (CreateProduct (H := fixedEnv ([], Some "boom"%string))
         "https://g" () acct "cat123" shirt
         (state0 (fixedEnv ([], Some "boom"%string)) 0%nat))
  = Ret (""%string,
         Some (@RequestError (fixedEnv ([], Some "boom"%string))
                 "boom"%string)).
Proof.
  exact (f_equal fst
           (@transport_error_is_returned
              (fixedEnv ([], Some "boom"%string))
              "https://g" () acct (CallCreateProduct "cat123" shirt)
              (state0 (fixedEnv ([], Some "boom"%string)) 0%nat) []
              "boom"%string 1%nat eq_refl)).
Defined.






(** ** Examples *)

(** The decoder takes a member named [ID] for the field [id]. *)
Example CreateCatalog_upper_case_ID :
  fst (CreateCatalog (H := fixedEnv (js "{'ID':'cat_9'}", None))
         "https://g" () acct "Summer"
         (state0 (fixedEnv (js "{'ID':'cat_9'}", None)) 0%nat))
  = Ret ("cat_9"%string, None).
Proof. reflexivity. Qed.

(** A member named [id] that holds a number is a type error. *)
Example CreateCatalog_number_id :
  fst (CreateCatalog (H := fixedEnv (js "{'id':5}", None))
         "https://g" () acct "Summer"
         (state0 (fixedEnv (js "{'id':5}", None)) 0%nat))
  = Ret (""%string,
         Some (@DecodeError (fixedEnv (js "{'id':5}", None))
                 (json.UnmarshalTypeError "number"))).
Proof. reflexivity. Qed.

(** A byte that is not UTF-8 inside a string is no error of syntax: the
    decoder writes the replacement character U+FFFD in its place. *)
Example CreateCatalog_repairs_utf8 :
  let body := (js "{'id':'a" ++ ["255"%char] ++ js "'}")%list in
  fst (CreateCatalog (H := fixedEnv (body, None))
         "https://g" () acct "Summer" (state0 (fixedEnv (body, None)) 0%nat))
  = Ret (String "a" (String "239" (String "191" (String "189" ""))), None).
Proof. reflexivity. Qed.

(** A name may be written with escapes: the decoder unquotes it before it
    looks it up. *)
Example CreateCatalog_escaped_name :
  let body := [ "{"; dquote; backslash; "u"; "0"; "0"; "6"; "9"; "d"; dquote;
                ":"; dquote; "x"; dquote; "}" ]%char in
  fst (CreateCatalog (H := fixedEnv (body, None))
         "https://g" () acct "Summer" (state0 (fixedEnv (body, None)) 0%nat))
  = Ret ("x"%string, None).
Proof. reflexivity. Qed.

Example FormatInt_1999 : strconv.FormatInt 1999 10 = "1999"%string.
Proof. reflexivity. Qed.

Example FormatInt_negative : strconv.FormatInt (-42) 10 = "-42"%string.
Proof. reflexivity. Qed.

Example FormatInt_least :
  strconv.FormatInt (- 2 ^ 63) 10 = "-9223372036854775808"%string.
Proof. vm_compute. reflexivity. Qed.

Example Encode_sorted :
  url.Encode (url.Add "b" "x y" (url.Add "a" "1" (url.Add "b" "2" ∅)))
  = "a=1&b=2&b=x+y"%string.
Proof. vm_compute. reflexivity. Qed.

Example parse_nested :
  json.parse (js " { 'id' : 'pid_1' , 'a' : [1, 2.5e+3, true, null, {}] } ")
  = Some (json.Object
            [(js "id", json.Str (js "pid_1"));
             (js "a",
              json.Array [json.Number (js "1"); json.Number (js "2.5e+3");
                          json.Bool true; json.Null; json.Object []])]).
Proof. vm_compute. reflexivity. Qed.

Example parse_trailing_comma : json.parse (js "[1,]") = None.
Proof. reflexivity. Qed.

Example parse_leading_zero : json.parse (js "01") = None.
Proof. reflexivity. Qed.

(** * Further properties of the client *)

(** [json.Unmarshal] into the [id] struct returns: it does not panic,
    whatever the bytes. *)
Lemma Unmarshal_id_returns (data : bytes) (dst : string) :
  ∃ s err, json.Unmarshal (json.struct1 "id") data dst = Ret (s, err).
Proof.
  unfold json.Unmarshal.
  destruct (json.parse data) as [v |] eqn:Hp; [| by eexists _, _].
  pose proof (struct1_id v data dst (parse_sound _ _ Hp)) as Hs.
  destruct v as [| b | lit | lit | vs | ms].
  - rewrite Hs. by eexists _, _.
  - destruct Hs as [e ->]. by eexists _, _.
  - destruct Hs as [e ->]. by eexists _, _.
  - destruct Hs as [e ->]. by eexists _, _.
  - destruct Hs as [e ->]. by eexists _, _.
  - destruct Hs as ((s & err & ->) & _). by eexists _, _.
Qed.

Section Beyond.
Context `{Env}.
Variables (c : Client) (ctx : Ctx) (account : Account).
Local Open Scope string_scope.

Lemma Unmarshal_idResponse_returns (data : bytes) :
  ∃ resp err,
    json.Unmarshal storeIDResponse data {| ID := "" |} = Ret (resp, err).
Proof.
  destruct (Unmarshal_id_returns data "") as (s & err & Hu).
  unfold json.Unmarshal, storeIDResponse in *.
  destruct (json.parse data); [| by eexists _, _].
  simpl. rewrite Hu. by eexists _, _.
Qed.

(** What every operation does, in terms of the answer of the transport. *)
Lemma run_result (k : call) (st : State) :
  let a := fst (answer c st (requestOf c ctx account k)) in
  match k return outcome (resultOf k) → Prop with
  | CallCreateCatalog _ | CallCreateProduct _ _ =>
      λ o, o = decoded storeIDResponse {| ID := "" |} ID "" a
  | CallListCatalogs =>
      λ o, o = decoded storeCatalogListResponse zeroCatalogListResponse
                 catalogData None a
  | CallListCatalogProducts _ =>
      λ o, o = decoded storeProductListResponse zeroProductListResponse
                 productData None a
  | CallDeleteCatalog _ | CallUpdateProduct _ _ | CallDeleteProduct _ =>
      λ o, o = Ret (RequestError <$> snd a)
  end (fst (run c ctx account k st)).
Proof.
  destruct k; simpl run;
    [ rewrite CreateCatalog_run | rewrite ListCatalogs_run
    | rewrite DeleteCatalog_run | rewrite ListCatalogProducts_run
    | rewrite CreateProduct_run | rewrite UpdateProduct_run
    | rewrite DeleteProduct_run ]; reflexivity.
Qed.

(** X1.  Whatever the transport answers, every operation sends exactly one
    request and leaves the world as that one round trip leaves it; the
    request carries the context and the access token of the account, its
    method is POST for the two creations and the update, GET for the two
    lists and DELETE for the two deletions, and it has a body exactly when
    the method is POST. *)
Theorem request_of_every_call (k : call) (st : State) :
  ∃ req : Request,
    sent (snd (run c ctx account k st)) = (sent st ++ [req])%list
    ∧ world (snd (run c ctx account k st))
      = snd (roundTrip c (world st) ctx (reqMethod req) (reqURL req)
               (reqBody req) (reqToken req))
    ∧ reqCtx req = ctx
    ∧ reqToken req = AccessToken account
    ∧ reqMethod req = methodOf k
    ∧ (reqBody req = None ↔ methodOf k ≠ MethodPost).
Proof.
  exists (requestOf c ctx account k). rewrite run_state.
  destruct k; simpl; repeat split; try done.
Qed.

Lemma run_returns (k : call) (st : State) :
  listsData k = false →
  ∃ r : resultOf k, fst (run c ctx account k st) = Ret r.
Proof.
  intros Hk. pose proof (run_result k st) as Hr. cbv zeta in Hr.
  destruct k; try discriminate Hk; rewrite Hr; try (by eexists).
  all: destruct (fst (answer c st _)) as [respBody [e |]]; simpl;
    [by eexists |];
    destruct (Unmarshal_idResponse_returns respBody) as (resp & [e |] & ->);
    by eexists.
Qed.

(** X2.  The five operations that do not read a list return, whatever the
    transport answers: they do not panic, not even in the decoder. *)
Theorem operations_return (k : call) (st : State) :
  listsData k = false →
  ∃ r : resultOf k, fst (run c ctx account k st) = Ret r.
Proof. apply run_returns. Qed.

(** X3.  An operation that returns an error returns the zero value of its
    result with it, whether the error comes from the transport, from the
    syntax check or from a type mismatch. *)
Theorem error_comes_with_zero_result (k : call) (st : State)
  (r : resultOf k) (e : error) :
  fst (run c ctx account k st) = Ret r →
  errorOf k r = Some e → r = failure k e.
Proof.
  pose proof (run_result k st) as Hr. cbv zeta in Hr.
  destruct k; rewrite Hr; unfold decoded;
    destruct (fst (answer c st _)) as [respBody [e' |]]; simpl;
    try destruct (json.Unmarshal _ _ _) as [[resp [e'' |]] |];
    intros [= <-]; simpl; intros Hx; try discriminate Hx;
    by injection Hx as <-.
Qed.

(** X4.  The error that an operation returns is the error of the transport
    exactly when the transport reports that error: an error of the
    transport is never turned into a decode error, nor the converse. *)
Theorem request_error_iff_transport_error (k : call) (st : State)
  (r : resultOf k) (e : transportError) :
  fst (run c ctx account k st) = Ret r →
  errorOf k r = Some (RequestError e)
  ↔ snd (fst (answer c st (requestOf c ctx account k))) = Some e.
Proof.
  pose proof (run_result k st) as Hr. cbv zeta in Hr.
  destruct k; rewrite Hr; unfold decoded;
    destruct (fst (answer c st _)) as [respBody [e' |]]; simpl;
    try destruct (json.Unmarshal _ _ _) as [[resp [e'' |]] |];
    intros [= <-]; simpl; split; intros Hx; try discriminate Hx;
    by injection Hx as <-.
Qed.

(** X5.  [DeleteCatalog], [UpdateProduct] and [DeleteProduct] do not look
    at the body of the response: when the transport reports no error they
    return none, whatever the body holds. *)
Theorem response_body_is_ignored (k : call) (st : State)
  (respBody : bytes) :
  decodes k = false →
  fst (answer c st (requestOf c ctx account k)) = (respBody, None) →
  ∃ r : resultOf k,
    fst (run c ctx account k st) = Ret r ∧ errorOf k r = None.
Proof.
  intros Hk Ha. pose proof (run_result k st) as Hr. cbv zeta in Hr.
  destruct k; try discriminate Hk; rewrite Hr, Ha; by eexists.
Qed.


(** A conditional insert adds at most its key. *)
Lemma dom_if_insert (b : bool) (k v : string) (m : gmap string string) :
  dom (if b then <[k:=v]> m else m) ⊆ {[k]} ∪ dom m.
Proof.
  destruct b; [rewrite dom_insert_L |]; set_unfold; tauto.
Qed.

(** X6.  The body of [CreateProduct] always has the six keys [name],
    [price], [currency], [url], [image_url] and [retailer_id], each with the
    field of the input as it is (also when it is empty, and whatever the
    price), and besides them only [description], when it is not empty. *)
Theorem CreateProduct_sends_all_fields (catalogID : string)
  (product : ProductInput) (st : State) :
  ∃ (req : Request) (body : gmap string string),
    sent (snd (CreateProduct c ctx account catalogID product st))
    = (sent st ++ [req])%list
    ∧ reqBody req = Some body
    ∧ dom body
      = {["name"; "price"; "currency"; "url"; "image_url"; "retailer_id"]}
        ∪ (if String.eqb (Description product) "" then ∅
           else {["description"]})
    ∧ body !! "name" = Some (Name product)
    ∧ body !! "price" = Some (strconv.FormatInt (Price product) 10)
    ∧ body !! "currency" = Some (Currency product)
    ∧ body !! "url" = Some (URL product)
    ∧ body !! "image_url" = Some (ImageURL product)
    ∧ body !! "retailer_id" = Some (RetailerID product).
Proof.
  exists (requestOf c ctx account (CallCreateProduct catalogID product)),
    (createProductBody product).
  rewrite CreateProduct_run. simpl.
  destruct (createProductBody_lookup product)
    as (Hn & Hp & Hc & Hu & Hi & Hr & _).
  rewrite createProductBody_dom. repeat split; assumption.
Qed.

(** X7.  The body of [UpdateProduct] has no other key than [name],
    [price], [currency], [url], [image_url] and [description]: the retailer
    identifier is never sent.  For an input without any set field the
    request is still sent, with the empty map. *)
Theorem UpdateProduct_keys (productID : string) (product : ProductInput)
  (st : State) :
  ∃ (req : Request) (body : gmap string string),
    sent (snd (UpdateProduct c ctx account productID product st))
    = (sent st ++ [req])%list
    ∧ reqMethod req = "POST"
    ∧ reqBody req = Some body
    ∧ dom body
      ⊆ {["name"; "price"; "currency"; "url"; "image_url"; "description"]}
    ∧ body !! "retailer_id" = None
    ∧ (Name product = "" → (Price product <= 0)%Z → Currency product = "" →
       URL product = "" → ImageURL product = "" → Description product = "" →
       body = ∅).
Proof.
  exists (requestOf c ctx account (CallUpdateProduct productID product)),
    (updateProductBody product).
  rewrite UpdateProduct_run. simpl.
  split; [reflexivity |]. split; [reflexivity |]. split; [reflexivity |].
  split; [| split].
  - unfold updateProductBody. cbv zeta.
    repeat (etrans; [apply dom_if_insert |]; apply union_least;
            [set_unfold; tauto |]).
    by rewrite dom_empty_L.
  - unfold updateProductBody.
    destruct (String.eqb (Name product) ""), (0 <? Price product)%Z,
      (String.eqb (Currency product) ""), (String.eqb (URL product) ""),
      (String.eqb (ImageURL product) ""),
      (String.eqb (Description product) ""); simpl; by simplify_map_eq.
  - unfold updateProductBody. intros -> Hp -> -> -> ->.
    destruct (Z.ltb_spec 0 (Price product)); [lia | reflexivity].
Qed.

End Beyond.

(** X8.  For an input with every field set and a positive price, the body
    of [UpdateProduct] is the body of [CreateProduct] without the key
    [retailer_id]. *)
Theorem update_body_is_create_body_without_retailer_id (p : ProductInput) :
  Name p ≠ ""%string → (0 < Price p)%Z → Currency p ≠ ""%string →
  URL p ≠ ""%string → ImageURL p ≠ ""%string → Description p ≠ ""%string →
  updateProductBody p = delete "retailer_id"%string (createProductBody p).
Proof.
  intros Hn Hp Hc Hu Hi Hd.
  apply String.eqb_neq in Hn, Hc, Hu, Hi, Hd. apply Z.ltb_lt in Hp.
  unfold updateProductBody, createProductBody.
  rewrite Hn, Hp, Hc, Hu, Hi, Hd. simpl.
  apply map_eq. intros i.
  repeat (rewrite ?lookup_delete, ?lookup_insert, ?lookup_empty;
          repeat case_decide; subst; try done).
Qed.

Lemma updateProductBody_ignores (p q : ProductInput) :
  Name p = Name q → Currency p = Currency q → URL p = URL q →
  ImageURL p = ImageURL q → Description p = Description q →
  (Price p = Price q ∨ (Price p <= 0 ∧ Price q <= 0)) →
  updateProductBody p = updateProductBody q.
Proof.
  intros Hn Hc Hu Hi Hd Hp. unfold updateProductBody.
  rewrite Hn, Hc, Hu, Hi, Hd.
  destruct Hp as [-> | [Hp Hq]]; [reflexivity |].
  destruct (Z.ltb_spec 0 (Price p)); [lia |].
  destruct (Z.ltb_spec 0 (Price q)); [lia |]. reflexivity.
Qed.

(** ** The price of any [int64] *)

Lemma formatBits_nonempty (fuel : nat) : ∀ (u b : Z) (a : string),
  (0 < fuel)%nat ∨ a ≠ EmptyString →
  strconv.formatBits fuel u b a ≠ EmptyString.
Proof.
  induction fuel as [| fuel IH]; intros u b a Hf; simpl.
  - destruct Hf as [Hf | Hf]; [lia | exact Hf].
  - destruct (b <=? u); [| discriminate]. apply IH. by right.
Qed.

Lemma decimalValue_formatBits (u : Z) :
  0 <= u < 2 ^ 64 →
  ∃ ch s, strconv.formatBits 64 u 10 "" = String ch s
          ∧ between "0" "9" ch = true
          ∧ allDigits s = true
          ∧ decimalValue (String ch s) = u.
Proof.
  intros Hu.
  assert (0 <= u < 10 ^ Z.of_nat 64) as Hb.
  { split; [lia |]. eapply Z.lt_trans; [apply Hu |]. reflexivity. }
  pose proof (formatBits_allDigits 64 u "" ltac:(lia) eq_refl) as Hall.
  pose proof (formatBits_value 64 u "" Hb) as Hval.
  pose proof (formatBits_nonempty 64 u 10 "" ltac:(left; lia)) as Hne.
  destruct (strconv.formatBits 64 u 10 "") as [| ch s]; [done |].
  simpl in Hall. apply andb_true_iff in Hall as [Hch Hs].
  by exists ch, s.
Qed.

(** X10.  For every price in [int64], also zero and the negative ones, the
    body of [CreateProduct] holds under [price] a minus sign for a negative
    price and then decimal digits only, and the numeral reads back as the
    price. *)
Theorem CreateProduct_price_reads_back (product : ProductInput) :
  - 2 ^ 63 <= Price product < 2 ^ 63 →
  ∃ s, createProductBody product !! "price"%string = Some s
       ∧ signedDecimalValue s = Price product
       ∧ (if Price product <? 0
          then ∃ s', s = String "-" s' ∧ allDigits s' = true
          else allDigits s = true).
Proof.
  intros Hp. exists (strconv.FormatInt (Price product) 10).
  split; [apply (createProductBody_lookup product) |].
  unfold strconv.FormatInt.
  destruct (Z.ltb_spec (Price product) 0) as [Hneg | Hpos].
  - rewrite Z.mod_small by lia.
    destruct (decimalValue_formatBits (- Price product) ltac:(lia))
      as (ch & s & Heq & Hch & Hs & Hval).
    rewrite Heq. split.
    + change (signedDecimalValue (String "-" (String ch s)))
        with (- decimalValue (String ch s)).
      rewrite Hval. lia.
    + exists (String ch s). split; [reflexivity |]. simpl.
      by rewrite Hch, Hs.
  - destruct (decimalValue_formatBits (Price product) ltac:(lia))
      as (ch & s & Heq & Hch & Hs & Hval).
    rewrite Heq. split.
    + unfold signedDecimalValue.
      destruct (Ascii.eqb_spec ch "-") as [-> | _]; [discriminate Hch |].
      exact Hval.
    + simpl. by rewrite Hch, Hs.
Qed.

(** ** net/url: the round trip of a query component *)

Lemma unescape_escape_char (ch : ascii) (s : string) :
  url.unescape (url.escape (String ch s))
  = String ch <$> url.unescape (url.escape s).
Proof. destruct ch as [[] [] [] [] [] [] [] []]; reflexivity. Qed.

(** X11.  A query component that [url.QueryEscape] has written is read
    back by [url.QueryUnescape] as it was, whatever bytes it holds. *)
Theorem QueryUnescape_QueryEscape (s : string) :
  url.QueryUnescape (url.QueryEscape s) = Some s.
Proof.
  unfold url.QueryUnescape, url.QueryEscape.
  induction s as [| ch s IH]; [reflexivity |].
  by rewrite unescape_escape_char, IH.
Qed.

(** ** The depth of what the scanner accepts *)

#[local] Arguments json.scanWord : simpl never.
#[local] Arguments json.scanNumber : simpl never.
#[local] Arguments json.scanString : simpl never.

Lemma scan_depth (fuel : nat) :
  (∀ depth s v rest,
     depth <= json.maxNestingDepth →
     json.scanValue fuel depth s = Some (v, rest) →
     depth + rfc8259.nesting v <= json.maxNestingDepth)
  ∧ (∀ depth s ms rest,
       depth <= json.maxNestingDepth →
       json.scanMembers fuel depth s = Some (ms, rest) →
       depth + foldr (λ m acc, Z.max (rfc8259.nesting m.2) acc) 0 ms
       <= json.maxNestingDepth)
  ∧ (∀ depth s vs rest,
       depth <= json.maxNestingDepth →
       json.scanElements fuel depth s = Some (vs, rest) →
       depth + foldr (λ x acc, Z.max (rfc8259.nesting x) acc) 0 vs
       <= json.maxNestingDepth).
Proof.
  induction fuel as [| fuel (IHv & IHm & IHe)];
    [repeat split; intros; discriminate |].
  split; [| split].
  - intros depth s v rest Hd Hs. simpl in Hs.
    destruct s as [| ch r]; [discriminate |].
    destruct (Ascii.eqb ch "{").
    { destruct (Z.leb_spec json.maxNestingDepth depth); [discriminate |].
      destruct (json.skipSpace r) as [| c' r']; [discriminate |].
      destruct (Ascii.eqb c' "}").
      - injection Hs as <- _. simpl; unfold json.maxNestingDepth in *; lia.
      - destruct (json.scanMembers fuel (depth + 1) (c' :: r'))
          as [[ms rest'] |] eqn:Hm; [| discriminate].
        simpl in Hs. injection Hs as <- _.
        pose proof (IHm (depth + 1) _ _ _ ltac:(lia) Hm). simpl; unfold json.maxNestingDepth in *; lia. }
    destruct (Ascii.eqb ch "[").
    { destruct (Z.leb_spec json.maxNestingDepth depth); [discriminate |].
      destruct (json.skipSpace r) as [| c' r']; [discriminate |].
      destruct (Ascii.eqb c' "]").
      - injection Hs as <- _. simpl; unfold json.maxNestingDepth in *; lia.
      - destruct (json.scanElements fuel (depth + 1) (c' :: r'))
          as [[vs rest'] |] eqn:He; [| discriminate].
        simpl in Hs. injection Hs as <- _.
        pose proof (IHe (depth + 1) _ _ _ ltac:(lia) He). simpl; unfold json.maxNestingDepth in *; lia. }
    destruct (Ascii.eqb ch dquote).
    { destruct (json.scanString r) as [[lit rest'] |]; [| discriminate].
      simpl in Hs. injection Hs as <- _. simpl; unfold json.maxNestingDepth in *; lia. }
    destruct (Ascii.eqb ch "-" || json.isDigit ch).
    { destruct (json.scanNumber (ch :: r)) as [[lit rest'] |];
        [| discriminate].
      simpl in Hs. injection Hs as <- _. simpl; unfold json.maxNestingDepth in *; lia. }
    destruct (Ascii.eqb ch "t").
    { destruct (json.scanWord _ r); [| discriminate].
      simpl in Hs. injection Hs as <- _. simpl; unfold json.maxNestingDepth in *; lia. }
    destruct (Ascii.eqb ch "f").
    { destruct (json.scanWord _ r); [| discriminate].
      simpl in Hs. injection Hs as <- _. simpl; unfold json.maxNestingDepth in *; lia. }
    destruct (Ascii.eqb ch "n"); [| discriminate].
    destruct (json.scanWord _ r); [| discriminate].
    simpl in Hs. injection Hs as <- _. simpl; unfold json.maxNestingDepth in *; lia.
  - intros depth s ms rest Hd Hs. simpl in Hs.
    destruct s as [| q r]; [discriminate |].
    destruct (Ascii.eqb q dquote); [| discriminate].
    destruct (json.scanString r) as [[key r1] |]; [| discriminate].
    simpl in Hs.
    destruct (json.skipSpace r1) as [| colon r2]; [discriminate |].
    destruct (Ascii.eqb colon ":"); [| discriminate].
    destruct (json.scanValue fuel depth (json.skipSpace r2))
      as [[v r3] |] eqn:Hv; [| discriminate].
    simpl in Hs. pose proof (IHv _ _ _ _ Hd Hv).
    destruct (json.skipSpace r3) as [| d r4]; [discriminate |].
    destruct (Ascii.eqb d ",").
    + destruct (json.scanMembers fuel depth (json.skipSpace r4))
        as [[ms' rest'] |] eqn:Hm; [| discriminate].
      simpl in Hs. injection Hs as <- _.
      pose proof (IHm _ _ _ _ Hd Hm). simpl; unfold json.maxNestingDepth in *; lia.
    + destruct (Ascii.eqb d "}"); [| discriminate].
      injection Hs as <- _. simpl; unfold json.maxNestingDepth in *; lia.
  - intros depth s vs rest Hd Hs. simpl in Hs.
    destruct (json.scanValue fuel depth s) as [[v r1] |] eqn:Hv;
      [| discriminate].
    simpl in Hs. pose proof (IHv _ _ _ _ Hd Hv).
    destruct (json.skipSpace r1) as [| d r2]; [discriminate |].
    destruct (Ascii.eqb d ",").
    + destruct (json.scanElements fuel depth (json.skipSpace r2))
        as [[vs' rest'] |] eqn:He; [| discriminate].
      simpl in Hs. injection Hs as <- _.
      pose proof (IHe _ _ _ _ Hd He). simpl; unfold json.maxNestingDepth in *; lia.
    + destruct (Ascii.eqb d "]"); [| discriminate].
      injection Hs as <- _. simpl; unfold json.maxNestingDepth in *; lia.
Qed.

(** The syntax check accepts a text exactly when it is a JSON text nested
    no deeper than the scanner allows, and gives the value of the text. *)
Lemma parse_iff (data : bytes) (v : json.value) :
  json.parse data = Some v
  ↔ rfc8259.JSONText v data ∧ rfc8259.nesting v <= json.maxNestingDepth.
Proof.
  split.
  - intros Hp. split; [by apply parse_sound |].
    unfold json.parse in Hp.
    destruct (json.scanValue _ 0 (json.skipSpace data)) as [[v' rest] |] eqn:Hv;
      [| discriminate].
    simpl in Hp. destruct (json.skipSpace rest); [| discriminate].
    injection Hp as <-.
    pose proof (proj1 (scan_depth _) 0 _ _ _ ltac:(done) Hv). lia.
  - intros [Hv Hn]. by apply parse_complete.
Qed.

(** ** The identifier that is read back *)

Lemma unquote_plain (lit : bytes) :
  Forall plainByte lit → json.unquote lit = Some lit.
Proof.
  unfold json.unquote.
  induction 1 as [| ch lit (Hr & Hq & Hb) _ IH]; [reflexivity |].
  cbn [json.unquoteLoop]. unfold json.unquoteStep.
  destruct (Ascii.eqb_spec ch backslash); [done |].
  destruct (Ascii.eqb_spec ch dquote); [done |].
  destruct (Z.ltb_spec (code ch) 32); [lia |].
  destruct (Z.ltb_spec (code ch) utf8.RuneSelf);
    [| unfold utf8.RuneSelf in *; lia].
  simpl. by rewrite IH.
Qed.

Lemma chars_plain (lit : bytes) : Forall plainByte lit → rfc8259.chars lit.
Proof.
  induction 1 as [| ch lit (Hr & Hq & Hb) _ IH]; constructor;
    (assumption || lia).
Qed.

Lemma chars_id : rfc8259.chars (js "id").
Proof.
  apply chars_plain. change (js "id") with ["i"; "d"]%char.
  repeat constructor; try discriminate;
    match goal with |- context [code ?x] => change (code x) with 105
                                            || change (code x) with 100 end;
    lia.
Qed.

(** The body [{"id":"..."}] is the text of an object with the one member
    [id]. *)
Lemma idBody_text (lit : bytes) :
  Forall plainByte lit →
  rfc8259.JSONText (json.Object [(js "id", json.Str lit)]) (idBody lit).
Proof.
  intros Hlit. exists [], (idBody lit), [].
  split; [by rewrite app_nil_r |]. split; [constructor |].
  split; [| constructor].
  replace (idBody lit)
    with ("{"%char :: [] ++
          (dquote :: js "id" ++ dquote :: [] ++ ":"%char :: []
           ++ (dquote :: lit ++ [dquote]) ++ []) ++ ["}"%char]).
  2: { unfold idBody. simpl. rewrite <- !app_assoc. reflexivity. }
  apply rfc8259.text_object; [constructor |].
  apply rfc8259.members_one;
    [apply chars_id | constructor | constructor | | constructor].
  apply rfc8259.text_string. by apply chars_plain.
Qed.

Lemma Unmarshal_idBody (lit : bytes) :
  Forall plainByte lit →
  json.Unmarshal (json.struct1 "id") (idBody lit) ""
  = Ret (string_of_list_ascii lit, None).
Proof.
  intros Hlit. unfold json.Unmarshal.
  rewrite (parse_complete _ _ (idBody_text lit Hlit))
    by (vm_compute; discriminate).
  simpl json.struct1.
  apply (object1_one_id [] [] (js "id") lit lit "").
  - constructor; [| constructor]. split; simpl; [apply chars_id |].
    intros ? [= <-]. by apply chars_plain.
  - constructor.
  - constructor.
  - exists (js "id"). split; [reflexivity |].
    apply fieldMatches_id. reflexivity.
  - by apply unquote_plain.
Qed.

(** ** No syntax error from the store *)

Lemma storeString_error (v : json.value) (dst s : string) (e : json.Error) :
  json.storeString v dst = Ret (s, Some e) → e ≠ json.SyntaxError.
Proof.
  destruct v; simpl; try destruct (json.unquote lit);
    intros Heq; inversion Heq; subst; discriminate.
Qed.

Lemma object1_error (ms : list (bytes * json.value)) :
  ∀ dst saved s e,
    saved ≠ Some json.SyntaxError →
    json.object1 "id" ms dst saved = Ret (s, Some e) →
    e ≠ json.SyntaxError.
Proof.
  induction ms as [| [k v] ms IH]; intros dst saved s e Hsaved; simpl.
  - intros [= _ ->]. congruence.
  - destruct (json.unquote k) as [key |]; [| discriminate].
    destruct (json.fieldMatches "id" key); [| by apply IH].
    destruct (json.storeString v dst) as [[dst' err] |] eqn:Hst;
      [| discriminate].
    apply IH. destruct saved as [e0 |]; simpl; [exact Hsaved |].
    destruct err as [e1 |]; [| discriminate].
    intros [= ->]. by eapply storeString_error.
Qed.

Lemma struct1_error (v : json.value) (dst s : string) (e : json.Error) :
  json.struct1 "id" v dst = Ret (s, Some e) → e ≠ json.SyntaxError.
Proof.
  destruct v as [| b | lit | lit | vs | ms]; simpl;
    [| | | destruct (json.unquote lit) | |];
    try (intros Heq; inversion Heq; subst; discriminate).
  apply object1_error. discriminate.
Qed.

Section BeyondDecoding.
Context `{Env}.
Variables (c : Client) (ctx : Ctx) (account : Account).
Local Open Scope string_scope.

(** X13.  When the transport answers [{"id":"..."}] around an identifier of
    printable ASCII without quote and backslash, [CreateCatalog] and
    [CreateProduct] return that identifier, byte for byte, and no error. *)
Theorem plain_id_is_returned (st : State) (lit : bytes)
  (name catalogID : string) (product : ProductInput) :
  Forall plainByte lit →
  (fst (answer c st (requestOf c ctx account (CallCreateCatalog name)))
   = (idBody lit, None) →
   fst (CreateCatalog c ctx account name st)
   = Ret (string_of_list_ascii lit, None))
  ∧ (fst (answer c st
            (requestOf c ctx account (CallCreateProduct catalogID product)))
     = (idBody lit, None) →
     fst (CreateProduct c ctx account catalogID product st)
     = Ret (string_of_list_ascii lit, None)).
Proof.
  intros Hlit.
  pose proof (Unmarshal_idBody lit Hlit) as Hu.
  assert (json.Unmarshal storeIDResponse (idBody lit) {| ID := "" |}
          = Ret ({| ID := string_of_list_ascii lit |}, None)) as Hu'.
  { unfold json.Unmarshal, storeIDResponse in *.
    destruct (json.parse (idBody lit)); [| discriminate]. simpl.
    by rewrite Hu. }
  split; intros Ha;
    [rewrite CreateCatalog_run | rewrite CreateProduct_run];
    cbv zeta; rewrite Ha; simpl; by rewrite Hu'.
Qed.

Lemma decoded_id_syntax_error (respBody : bytes) :
  decoded storeIDResponse {| ID := "" |} ID "" (respBody, None)
  = Ret ("", Some (DecodeError json.SyntaxError))
  ↔ json.parse respBody = None.
Proof.
  unfold decoded, json.Unmarshal, storeIDResponse.
  destruct (json.parse respBody) as [v |]; [| done].
  split; [| discriminate]. simpl.
  destruct (json.struct1 "id" v "") as [[s [e |]] |] eqn:Hs;
    try discriminate.
  intros Heq. apply struct1_error in Hs. congruence.
Qed.

(** X14.  When the transport reports no error, [CreateCatalog] and
    [CreateProduct] fail with the wrapped syntax error exactly when the
    body is not a JSON text nested at most [maxNestingDepth] deep. *)
Theorem syntax_error_iff (k : call) (st : State) (respBody : bytes) :
  decodes k = true → listsData k = false →
  fst (answer c st (requestOf c ctx account k)) = (respBody, None) →
  fst (run c ctx account k st)
  = Ret (failure k (DecodeError json.SyntaxError))
  ↔ ¬ ∃ v, rfc8259.JSONText v respBody
           ∧ (rfc8259.nesting v <= json.maxNestingDepth)%Z.
Proof.
  intros Hd Hl Ha.
  assert (fst (run c ctx account k st)
          = Ret (failure k (DecodeError json.SyntaxError))
          ↔ json.parse respBody = None) as ->.
  { destruct k; try discriminate Hd; try discriminate Hl; simpl run;
      [rewrite CreateCatalog_run | rewrite CreateProduct_run];
      cbv zeta; rewrite Ha; apply decoded_id_syntax_error. }
  split.
  - intros Hp (v & Hv & Hn).
    by rewrite (proj2 (parse_iff respBody v) (conj Hv Hn)) in Hp.
  - intros Hno. destruct (json.parse respBody) as [v |] eqn:Hp;
      [| reflexivity].
    exfalso. apply Hno. exists v. by apply parse_iff.
Qed.

(** X9.  [UpdateProduct] does not depend on the retailer identifier of the
    input, nor on which price it has among those that are not positive:
    two inputs that agree elsewhere give the same computation. *)
Theorem UpdateProduct_ignores (productID : string) (p q : ProductInput)
  (st : State) :
  Name p = Name q → Currency p = Currency q → URL p = URL q →
  ImageURL p = ImageURL q → Description p = Description q →
  (Price p = Price q ∨ (Price p <= 0 ∧ Price q <= 0))%Z →
  UpdateProduct c ctx account productID p st
  = UpdateProduct c ctx account productID q st.
Proof.
  intros Hn Hc Hu Hi Hd Hp. rewrite !UpdateProduct_run. cbv zeta. simpl.
  by rewrite (updateProductBody_ignores p q Hn Hc Hu Hi Hd Hp).
Qed.

(** X12.  The identifiers are written into the URL as they are, without
    escaping: the deletion of a "product" whose identifier is a catalog
    identifier followed by [/products] goes to the very URL that
    [CreateProduct] posts to for that catalog, and likewise for the
    catalogs URL of the business. *)
Theorem identifiers_are_not_escaped (catalogID name : string)
  (product : ProductInput) (st : State) :
  reqURL <$> sent (snd (DeleteProduct c ctx account
                          (catalogID +:+ "/products") st))
  = reqURL <$> sent (snd (CreateProduct c ctx account catalogID
                            product st))
  ∧ reqURL <$> sent (snd (DeleteCatalog c ctx account
                            (BusinessID account
                             +:+ "/owned_product_catalogs") st))
    = reqURL <$> sent (snd (CreateCatalog c ctx account name st)).
Proof.
  rewrite DeleteProduct_run, CreateProduct_run, DeleteCatalog_run,
    CreateCatalog_run.
  unfold after. simpl. rewrite !fmap_app. split; reflexivity.
Qed.

(** X15.  Two operations one after the other send their two requests in
    that order, and the second request is the one the second operation
    sends on its own: nothing of the first answer goes into it. *)
Theorem calls_in_sequence (k1 k2 : call) (st : State) :
  listsData k1 = false →
  sent (snd ((run c ctx account k1
              ≫= λ _ : resultOf k1, run c ctx account k2) st))
  = (sent st ++ [requestOf c ctx account k1;
                 requestOf c ctx account k2])%list.
Proof.
  intros Hk. destruct (run_returns c ctx account k1 st Hk) as [r Hr].
  pose proof (run_state c ctx account k1 st) as Hs.
  unfold mbind, M_bind.
  destruct (run c ctx account k1 st) as [o st1]. simpl in Hr, Hs.
  subst o st1. rewrite run_state. unfold after. simpl.
  by rewrite <- app_assoc.
Qed.

End BeyondDecoding.

(** ** The further properties on the example transport *)

Lemma operations_return_witness :
  ∃ r, fst (run (H := fixedEnv (js "{'id':[", None))
              "https://g" () acct (CallCreateProduct "cat123" shirt)
              (state0 (fixedEnv (js "{'id':[", None)) 0%nat))
       = Ret r.
Proof.
  exact (@operations_return (fixedEnv (js "{'id':[", None))
           "https://g" () acct (CallCreateProduct "cat123" shirt)
           (state0 (fixedEnv (js "{'id':[", None)) 0%nat) eq_refl).
Defined.

Lemma error_comes_with_zero_result_witness :
  (""%string,
   Some (@DecodeError (fixedEnv (js "[]", None))
           (json.UnmarshalTypeError "array")))
  = failure (H := fixedEnv (js "[]", None)) (CallCreateCatalog "Summer")
      (DecodeError (json.UnmarshalTypeError "array")).
Proof.
  exact (@error_comes_with_zero_result (fixedEnv (js "[]", None))
           "https://g" () acct (CallCreateCatalog "Summer")
           (state0 (fixedEnv (js "[]", None)) 0%nat)
           (""%string, Some (DecodeError (json.UnmarshalTypeError "array")))
           (DecodeError (json.UnmarshalTypeError "array"))
           eq_refl eq_refl).
Defined.

Lemma request_error_iff_transport_error_witness :
  @errorOf (fixedEnv ([], Some "boom"%string)) (CallDeleteProduct "p1")
    (Some (@RequestError (fixedEnv ([], Some "boom"%string)) "boom"%string))
  = Some (@RequestError (fixedEnv ([], Some "boom"%string)) "boom"%string)
  ↔ Some "boom"%string = Some "boom"%string.
Proof.
  exact (@request_error_iff_transport_error
           (fixedEnv ([], Some "boom"%string))
           "https://g" () acct (CallDeleteProduct "p1")
           (state0 (fixedEnv ([], Some "boom"%string)) 0%nat)
           (Some (@RequestError (fixedEnv ([], Some "boom"%string))
                    "boom"%string))
           "boom"%string eq_refl).
Defined.

Lemma response_body_is_ignored_witness :
  ∃ r, fst (run (H := fixedEnv (js "<html>", None))
              "https://g" () acct (CallDeleteCatalog "cat123")
              (state0 (fixedEnv (js "<html>", None)) 0%nat))
       = Ret r
       ∧ errorOf (CallDeleteCatalog "cat123") r = None.
Proof.
  exact (@response_body_is_ignored (fixedEnv (js "<html>", None))
           "https://g" () acct (CallDeleteCatalog "cat123")
           (state0 (fixedEnv (js "<html>", None)) 0%nat)
           (js "<html>") eq_refl eq_refl).
Defined.

Lemma UpdateProduct_keys_witness :
  ∃ req : @Request (fixedEnv ([], None)),
    sent (snd (UpdateProduct (H := fixedEnv ([], None))
                 "https://g" () acct "p1" emptyProduct
                 (state0 (fixedEnv ([], None)) 0%nat)))
    = [req]
    ∧ reqBody req = Some ∅.
Proof.
  destruct (@UpdateProduct_keys (fixedEnv ([], None))
              "https://g" () acct "p1" emptyProduct
              (state0 (fixedEnv ([], None)) 0%nat))
    as (req & body & Hsent & _ & Hbody & _ & _ & Hempty).
  exists req. split; [exact Hsent |].
  rewrite Hbody.
  by rewrite (Hempty eq_refl ltac:(simpl; lia) eq_refl eq_refl eq_refl
                eq_refl).
Defined.

Lemma update_body_is_create_body_without_retailer_id_witness :
  updateProductBody cottonShirt
  = delete "retailer_id"%string (createProductBody cottonShirt).
Proof.
  apply update_body_is_create_body_without_retailer_id;
    simpl; (discriminate || lia).
Defined.

Lemma UpdateProduct_ignores_witness :
  UpdateProduct (H := fixedEnv ([], None)) "https://g" () acct "p1"
    emptyProduct (state0 (fixedEnv ([], None)) 0%nat)
  = UpdateProduct (H := fixedEnv ([], None)) "https://g" () acct "p1"
      {| Name := ""; Price := -5; Currency := ""; URL := ""; ImageURL := "";
         RetailerID := "sku-9"; Description := "" |}
      (state0 (fixedEnv ([], None)) 0%nat).
Proof.
  apply (@UpdateProduct_ignores (fixedEnv ([], None))); try reflexivity.
  right. simpl. lia.
Defined.

Lemma CreateProduct_price_reads_back_witness :
  ∃ s,
    createProductBody
      {| Name := "Refund"; Price := -250; Currency := "USD"; URL := "";
         ImageURL := ""; RetailerID := "r"; Description := "" |}
    !! "price"%string = Some s
    ∧ signedDecimalValue s = -250
    ∧ ∃ s', s = String "-" s' ∧ allDigits s' = true.
Proof.
  apply (CreateProduct_price_reads_back
           {| Name := "Refund"; Price := -250; Currency := "USD"; URL := "";
              ImageURL := ""; RetailerID := "r"; Description := "" |}).
  simpl. lia.
Defined.

Lemma plain_pid_1 : Forall plainByte (js "pid_1").
Proof.
  repeat constructor; try discriminate;
    first [ by (vm_compute; discriminate) | by vm_compute ].
Qed.

Lemma plain_id_is_returned_witness :
  fst (CreateCatalog (H := fixedEnv (idBody (js "pid_1"), None))
         "https://g" () acct "Summer"
         (state0 (fixedEnv (idBody (js "pid_1"), None)) 0%nat))
  = Ret ("pid_1"%string, None)
  ∧ fst (CreateProduct (H := fixedEnv (idBody (js "pid_1"), None))
           "https://g" () acct "cat123" shirt
           (state0 (fixedEnv (idBody (js "pid_1"), None)) 0%nat))
    = Ret ("pid_1"%string, None).
Proof.
  destruct (@plain_id_is_returned (fixedEnv (idBody (js "pid_1"), None))
              "https://g" () acct
              (state0 (fixedEnv (idBody (js "pid_1"), None)) 0%nat)
              (js "pid_1") "Summer" "cat123" shirt plain_pid_1)
    as [H1 H2].
  split; [exact (H1 eq_refl) | exact (H2 eq_refl)].
Defined.

Lemma syntax_error_iff_witness :
  fst (run (H := fixedEnv (js "{'id':", None))
         "https://g" () acct (CallCreateCatalog "Summer")
         (state0 (fixedEnv (js "{'id':", None)) 0%nat))
  = Ret (failure (H := fixedEnv (js "{'id':", None))
           (CallCreateCatalog "Summer") (DecodeError json.SyntaxError))
  ↔ ¬ ∃ v, rfc8259.JSONText v (js "{'id':")
           ∧ rfc8259.nesting v <= json.maxNestingDepth.
Proof.
  exact (@syntax_error_iff (fixedEnv (js "{'id':", None))
           "https://g" () acct (CallCreateCatalog "Summer")
           (state0 (fixedEnv (js "{'id':", None)) 0%nat)
           (js "{'id':") eq_refl eq_refl eq_refl).
Defined.

Lemma calls_in_sequence_witness :
  reqMethod <$>
    sent (snd ((run (H := fixedEnv (js "{}", None))
                  "https://g" () acct (CallCreateCatalog "Summer")
                ≫= λ _, run (H := fixedEnv (js "{}", None))
                          "https://g" () acct (CallDeleteCatalog "cat123"))
                 (state0 (fixedEnv (js "{}", None)) 0%nat)))
  = ["POST"; "DELETE"]%string.
Proof.
  exact (f_equal (fmap reqMethod)
           (@calls_in_sequence (fixedEnv (js "{}", None))
              "https://g" () acct (CallCreateCatalog "Summer")
              (CallDeleteCatalog "cat123")
              (state0 (fixedEnv (js "{}", None)) 0%nat) eq_refl)).
Defined.
